(** * git_log: a shallow embedding of [jc/parsers/git_log.py]

  The parser folds over the lines of a [git log] listing and builds a
  list of dictionaries.  The embedding follows the Python source
  statement by statement:

  - a Python [str] is a [string]; every [ascii] stands for the code
    point of the same number (0 to 255), so that [str.isspace], the
    line boundaries of [str.splitlines] and the regex classes [\s] and
    [\d] are the Unicode ones restricted to that range;
  - a Python [dict] is a [gmap string value];
  - the dictionaries live in a store and are named by their address,
    because [output_line] and the elements of [raw_output] can be the
    same object;
  - [IndexError], [KeyError] and [TypeError] are results of the
    functions that can raise them. *)

From Stdlib Require Import Ascii String.
From stdpp Require Import base option list strings gmap.

Local Open Scope string_scope.

(** ** Python string methods *)

Module PyStr.

Definition code (c : ascii) : N := N_of_ascii c.

(** [Py_UNICODE_ISSPACE] below U+0100: TAB, LF, VT, FF, CR, FS, GS, RS,
    US, SPACE, NEL and NBSP. *)
Definition isspace (c : ascii) : bool :=
  let n := code c in
  ((9 <=? n) && (n <=? 13) || (28 <=? n) && (n <=? 32)
   || (n =? 133) || (n =? 160))%N.

(** Line boundaries of [str.splitlines] below U+0100: LF, VT, FF, CR,
    FS, GS, RS and NEL (US is not one). *)
Definition islinebreak (c : ascii) : bool :=
  let n := code c in
  ((10 <=? n) && (n <=? 13) || (28 <=? n) && (n <=? 30) || (n =? 133))%N.

(** [\d] of a [str] pattern below U+0100. *)
Definition isdigit (c : ascii) : bool :=
  let n := code c in ((48 <=? n) && (n <=? 57))%N.

Definition chars (s : string) : list ascii := list_ascii_of_string s.
Definition str (l : list ascii) : string := string_of_list_ascii l.

Fixpoint drop_while (p : ascii -> bool) (s : string) : string :=
  match s with
  | String c s' => if p c then drop_while p s' else s
  | EmptyString => EmptyString
  end.

Fixpoint take_while (p : ascii -> bool) (s : string) : string :=
  match s with
  | String c s' => if p c then String c (take_while p s') else EmptyString
  | EmptyString => EmptyString
  end.

Definition reverse (s : string) : string := str (rev (chars s)).

Definition nonspace (c : ascii) : bool := negb (isspace c).

Definition is_empty (s : string) : bool :=
  match s with EmptyString => true | _ => false end.

(** [s.lstrip()], [s.rstrip()], [s.strip()] *)
Definition lstrip (s : string) : string := drop_while isspace s.
Definition rstrip (s : string) : string := reverse (lstrip (reverse s)).
Definition strip (s : string) : string := rstrip (lstrip s).

(** [s.strip(c)] for a one-character argument *)
Definition strip_char (c : ascii) (s : string) : string :=
  let p := Ascii.eqb c in
  reverse (drop_while p (reverse (drop_while p s))).

(** [s.split(maxsplit=1)]: skip white space, take the first token, skip
    white space again and keep what is left, as it is, when it is not
    empty. *)
Definition split1 (s : string) : list string :=
  let s1 := drop_while isspace s in
  if is_empty s1 then []
  else
    let tok := take_while nonspace s1 in
    let rest := drop_while isspace (drop_while nonspace s1) in
    if is_empty rest then [tok] else [tok; rest].

(** [s.rsplit(maxsplit=1)]: the same scan from the right end. *)
Definition rsplit1 (s : string) : list string :=
  rev (map reverse (split1 (reverse s))).

(** [s.startswith(p)] *)
Fixpoint startswith (p s : string) : bool :=
  match p, s with
  | EmptyString, _ => true
  | String a p', String b s' => Ascii.eqb a b && startswith p' s'
  | String _ _, EmptyString => false
  end.

(** [p in s] *)
Fixpoint contains (p s : string) : bool :=
  startswith p s ||
  match s with
  | String _ s' => contains p s'
  | EmptyString => false
  end.

(** [s.split(c)[0]]: what comes before the first [c], or all of [s]. *)
Definition before_char (c : ascii) (s : string) : string :=
  take_while (fun b => negb (Ascii.eqb c b)) s.

(** The string ['\n'] *)
Definition newline : string := String "010" EmptyString.

(** [sep.join(l)] *)
Fixpoint join (sep : string) (l : list string) : string :=
  match l with
  | [] => EmptyString
  | [x] => x
  | x :: l' => x ++ sep ++ join sep l'
  end.

(** [s.splitlines()]: [acc] holds the characters of the line being
    read, last one first.  CR LF is one boundary; no empty line is
    produced at the end of the text. *)
Fixpoint splitlines_from (acc : list ascii) (s : string) : list string :=
  match s with
  | EmptyString =>
      match acc with [] => [] | _ => [str (rev acc)] end
  | String c s' =>
      if islinebreak c then
        str (rev acc) ::
          match s' with
          | String c' s'' =>
              if Ascii.eqb c "013" && Ascii.eqb c' "010"
              then splitlines_from [] s''
              else splitlines_from [] s'
          | EmptyString => []
          end
      else splitlines_from (c :: acc) s'
  end.

Definition splitlines (s : string) : list string := splitlines_from [] s.

(** [s.isspace()]: at least one character, and all of them white space. *)
Definition all_space (s : string) : bool :=
  negb (is_empty s) && is_empty (drop_while isspace s).

End PyStr.

(** ** The fragment of Python's [re] that the parser uses

  A backtracking matcher: alternatives are tried from left to right,
  [?] and [+] are greedy, and the first way of matching the whole
  pattern decides what the groups hold.  [re.match] anchors the pattern
  at the start of the string only. *)

Module Re.

Inductive regex : Type :=
| Eps                                    (* the empty pattern *)
| Lit (c : ascii)                        (* one literal character *)
| Class (p : ascii -> bool)              (* \s, \d, [0-9], [a-f] *)
| Cat (r1 r2 : regex)                    (* r1 r2 *)
| Alt (r1 r2 : regex)                    (* r1|r2 *)
| Opt (r : regex)                        (* r? *)
| Plus (r : regex)                       (* r+ *)
| Group (name : option string) (r : regex).   (* (r) and (?P<name>r) *)

(** The text of the named groups that took part in the match. *)
Abbreviation groups := (gmap string string).

Definition consumed (s rest : string) : string :=
  PyStr.str (take (String.length s - String.length rest) (PyStr.chars s)).

Definition bind_group (name : option string) (txt : string) (g : groups)
  : groups :=
  match name with
  | Some n => <[n := txt]> g
  | None => g
  end.

(** A continuation: what is still to match after a part of the pattern;
    [None] makes the matcher try the next alternative. *)
Abbreviation cont := (string → groups → option groups).

(** [body+], with [body] given as a matcher: one [body], then either
    more of them (tried first: [+] is greedy) or the rest of the pattern.
    [fuel] bounds the number of iterations, and an iteration that
    consumes nothing is not repeated. *)
Fixpoint repeat_from (body : string → groups → cont → option groups)
         (fuel : nat) (s : string) (g : groups) (k : cont) : option groups :=
  match fuel with
  | O => None
  | S fuel' =>
      body s g (fun s' g' =>
        let again :=
          if (String.length s' <? String.length s)%nat
          then repeat_from body fuel' s' g' k else None in
        match again with
        | Some m => Some m
        | None => k s' g'
        end)
  end.

(** [run r s g k]: match [r] at the start of [s], then go on with [k] on
    what is left. *)
Fixpoint run (r : regex) (s : string) (g : groups) (k : cont) {struct r}
  : option groups :=
  match r with
  | Eps => k s g
  | Lit a =>
      match s with
      | String b s' => if Ascii.eqb a b then k s' g else None
      | EmptyString => None
      end
  | Class p =>
      match s with
      | String b s' => if p b then k s' g else None
      | EmptyString => None
      end
  | Cat r1 r2 => run r1 s g (fun s' g' => run r2 s' g' k)
  | Alt r1 r2 =>
      match run r1 s g k with
      | Some m => Some m
      | None => run r2 s g k
      end
  | Opt r1 =>
      match run r1 s g k with
      | Some m => Some m
      | None => k s g
      end
  | Plus r1 => repeat_from (run r1) (S (String.length s)) s g k
  | Group name r1 =>
      run r1 s g (fun s' g' => k s' (bind_group name (consumed s s') g'))
  end.

(** [re.match(pattern, s)]: [None], or the match object, of which the
    parser reads the named groups only. *)
Definition re_match (r : regex) (s : string) : option groups :=
  run r s ∅ (fun _ g => Some g).

(** A literal word, one character after the other. *)
Fixpoint word (w : string) : regex :=
  match w with
  | EmptyString => Eps
  | String c w' => Cat (Lit c) (word w')
  end.

(** The patterns of a list, one after the other. *)
Fixpoint seq (rs : list regex) : regex :=
  match rs with
  | [] => Eps
  | r :: rs' => Cat r (seq rs')
  end.

Definition ws : regex := Class PyStr.isspace.
Definition digit : regex := Class PyStr.isdigit.

Definition in_range (lo hi : ascii) (c : ascii) : bool :=
  ((PyStr.code lo <=? PyStr.code c) && (PyStr.code c <=? PyStr.code hi))%N.

End Re.

(** ** The parser *)

Module GitLog.

Import PyStr Re.

(** *** Exceptions *)

Inductive exn : Set := IndexError | KeyError | TypeError.

Inductive result (A : Type) : Type :=
| Ok (a : A)
| Raise (e : exn).
Arguments Ok {A} a.
Arguments Raise {A} e.

#[global] Instance result_bind : MBind result := fun A B f m =>
  match m with
  | Ok a => f a
  | Raise e => Raise e
  end.

(** [l[i]] on a Python list *)
Definition item {A : Type} (l : list A) (i : nat) : result A :=
  match l !! i with
  | Some x => Ok x
  | None => Raise IndexError
  end.

(** *** Values *)

(** The dictionary the summary line builds; [files] is a list to which
    the parser appends the list of buffered names, as one element. *)
Record stats : Set := Stats {
  files_changed : string;
  insertions : string;
  deletions : string;
  files : list (list string)
}.

Inductive value : Set :=
| VStr (s : string)
| VStats (s : stats).

Abbreviation dict := (gmap string value).
Abbreviation addr := nat.

(** *** The local variables of [parse] and the store of dictionaries *)

Record state : Type := State {
  heap : list dict;
  raw_output : list addr;
  output_line : addr;
  message_lines : list string;
  file_list : list string
}.

(** [raw_output = []], [output_line = {}], [message_lines = []],
    [file_list = []] *)
Definition init : state :=
  {| heap := [∅]; raw_output := []; output_line := 0;
     message_lines := []; file_list := [] |}.

Definition at_addr (h : list dict) (a : addr) : dict := default ∅ (h !! a).

(** The dictionary [output_line] is bound to. *)
Definition cur (st : state) : dict := at_addr (heap st) (output_line st).

(** [output_line = d] for a dictionary display [d]: a new object *)
Definition bind_new (d : dict) (st : state) : state :=
  {| heap := heap st ++ [d]; raw_output := raw_output st;
     output_line := length (heap st);
     message_lines := message_lines st; file_list := file_list st |}.

(** [output_line[k] = v] *)
Definition setitem (k : string) (v : value) (st : state) : state :=
  {| heap := alter (insert k v) (output_line st) (heap st);
     raw_output := raw_output st; output_line := output_line st;
     message_lines := message_lines st; file_list := file_list st |}.

(** [raw_output.append(output_line)] *)
Definition append_output (st : state) : state :=
  {| heap := heap st; raw_output := raw_output st ++ [output_line st];
     output_line := output_line st;
     message_lines := message_lines st; file_list := file_list st |}.

(** [message_lines.append(s)] *)
Definition append_message (s : string) (st : state) : state :=
  {| heap := heap st; raw_output := raw_output st;
     output_line := output_line st;
     message_lines := message_lines st ++ [s]; file_list := file_list st |}.

(** [file_list.append(s)] *)
Definition append_file (s : string) (st : state) : state :=
  {| heap := heap st; raw_output := raw_output st;
     output_line := output_line st;
     message_lines := message_lines st; file_list := file_list st ++ [s] |}.

(** [message_lines = []] and [file_list = []] *)
Definition clear_buffers (st : state) : state :=
  {| heap := heap st; raw_output := raw_output st;
     output_line := output_line st;
     message_lines := []; file_list := [] |}.

(** [if d:] on a dictionary *)
Definition truthy (d : dict) : bool := negb (bool_decide (d = ∅)).

Definition nonempty {A : Type} (l : list A) : bool :=
  match l with [] => false | _ => true end.

(** [output_line['stats']['files'].append(file_list)] *)
Definition append_files (st : state) : result state :=
  match cur st !! "stats" with
  | None => Raise KeyError
  | Some (VStr _) => Raise TypeError
  | Some (VStats s) =>
      Ok (setitem "stats"
            (VStats {| files_changed := files_changed s;
                       insertions := insertions s;
                       deletions := deletions s;
                       files := files s ++ [file_list st] |}) st)
  end.

(** *** [_is_commit_hash] *)

(** [r'([0-9]|[a-f])+'] *)
Definition hash_pattern : regex :=
  Plus (Group None (Alt (Class (in_range "0" "9")) (Class (in_range "a" "f")))).

Definition _is_commit_hash (hash_string : string) : bool :=
  if negb (String.length hash_string =? 40)%nat then false
  else if re_match hash_pattern hash_string is Some _ then true
  else false.

(** *** The summary line *)

(** [r'\s(?P<files>\d+)\s+(files? changed),\s+(?P<insertions>\d+)\s(insertions?\(\+\))?(,\s+)?(?P<deletions>\d+)?(\s+deletions?\(\-\))?'] *)
Definition changes_pattern : regex :=
  seq [ ws;
        Group (Some "files") (Plus digit);
        Plus ws;
        Group None (seq [word "file"; Opt (Lit "s"); word " changed"]);
        Lit ",";
        Plus ws;
        Group (Some "insertions") (Plus digit);
        ws;
        Opt (Group None (seq [word "insertion"; Opt (Lit "s"); word "(+)"]));
        Opt (Group None (seq [Lit ","; Plus ws]));
        Opt (Group (Some "deletions") (Plus digit));
        Opt (Group None
               (seq [Plus ws; word "deletion"; Opt (Lit "s"); word "(-)"])) ].

(** [x or '0'], where [x] is [None] or a string *)
Definition or_zero (x : option string) : string :=
  match x with
  | Some s => if is_empty s then "0" else s
  | None => "0"
  end.

(** *** The seal: what both the boundary branch and the end of [parse]
    do to a non-empty [output_line] *)

Definition seal (st : state) : result state :=
  (* if message_lines: output_line['message'] = '\n'.join(message_lines) *)
  let st1 :=
    if nonempty (message_lines st)
    then setitem "message" (VStr (join newline (message_lines st))) st
    else st in
  (* if file_list: output_line['stats']['files'].append(file_list) *)
  st2 ← (if nonempty (file_list st1) then append_files st1 else Ok st1);
  (* raw_output.append(output_line) *)
  Ok (append_output st2).

(** *** The body of the loop, for one line *)

Definition process_line (st : state) (line : string) : result state :=
  let line_list := split1 line in
  (* oneline style *)
  if (if line_list is tok :: _ then _is_commit_hash tok else false) then
    commit ← item line_list 0;
    message ← item line_list 1;
    Ok (append_output
          (bind_new {[ "commit" := VStr commit; "message" := VStr message ]}
                    st))
  (* all other styles *)
  else if startswith "commit " line then
    st1 ← (if truthy (cur st)
           then st' ← seal st; Ok (clear_buffers (bind_new ∅ st'))
           else Ok st);
    v ← item line_list 1;
    Ok (setitem "commit" (VStr v) st1)
  else if startswith "Merge: " line then
    v ← item line_list 1;
    Ok (setitem "merge" (VStr v) st)
  else if startswith "Author: " line then
    rest ← item line_list 1;
    let values := rsplit1 rest in
    name ← item values 0;
    let st1 := setitem "author" (VStr name) st in
    email ← item values 1;
    Ok (setitem "author_email"
          (VStr (strip_char ">" (strip_char "<" email))) st1)
  else if startswith "Date: " line then
    v ← item line_list 1;
    Ok (setitem "date" (VStr v) st)
  else if startswith "AuthorDate: " line then
    v ← item line_list 1;
    Ok (setitem "date" (VStr v) st)
  else if startswith "CommitDate: " line then
    v ← item line_list 1;
    Ok (setitem "commit_by_date" (VStr v) st)
  else if startswith "Commit: " line then
    rest ← item line_list 1;
    let values := rsplit1 rest in
    name ← item values 0;
    let st1 := setitem "commit_by" (VStr name) st in
    email ← item values 1;
    Ok (setitem "commit_by_email"
          (VStr (strip_char ">" (strip_char "<" email))) st1)
  else if startswith "    " line then
    Ok (append_message (strip line) st)
  else if startswith " " line && negb (contains "changed, " line) then
    (* this is a file name *)
    let file_name := strip (before_char "|" line) in
    Ok (append_file file_name st)
  else if startswith " " line && contains "changed, " line then
    (* this is the stat summary *)
    match re_match changes_pattern line with
    | None => Raise TypeError          (* changes['files'] on None *)
    | Some changes =>
        let files := changes !! "files" in
        let insertions := changes !! "insertions" in
        let deletions := changes !! "deletions" in
        Ok (setitem "stats"
              (VStats {| files_changed := or_zero files;
                         insertions := or_zero insertions;
                         deletions := or_zero deletions;
                         files := [] |}) st)
    end
  else Ok st.

(** [for line in lines: ...] *)
Fixpoint run_lines (lines : list string) (st : state) : result state :=
  match lines with
  | [] => Ok st
  | line :: rest => st' ← process_line st line; run_lines rest st'
  end.

(** Modelled from the spec: [jc.utils.has_data], which the module
    imports and this repository does not hold; section 6 has input with
    no non-whitespace content yield the empty sequence. *)
Definition has_data (data : string) : bool :=
  negb (is_empty data) && negb (all_space data).

(** [_process]: nothing to process *)
Definition _process (proc_data : list dict) : list dict := proc_data.

(** The objects of [raw_output], read from the store. *)
Definition contents (st : state) : list dict :=
  map (at_addr (heap st)) (raw_output st).

(** The statements of [parse] up to the [return].  The two calls at the
    top of [parse] are left out: [jc.utils.compatibility] can only print
    a warning, and [jc.utils.input_type_check] raises for an argument
    that is not a [str], which the type of [data] excludes. *)
Definition parse_state (data : string) : result state :=
  st ← (if has_data data then run_lines (splitlines data) init else Ok init);
  if truthy (cur st) then seal st else Ok st.

Definition parse (data : string) (raw quiet : bool) : result (list dict) :=
  st ← parse_state data;
  Ok (if raw then contents st else _process (contents st)).

(** *** The roles of section 4.1, in the order of the tests of
    [process_line] *)

Inductive role : Set :=
| CompactCommit | RecordBoundary | MergeParents | AuthorHeader
| DateHeader | AuthorDateHeader | CommitDateHeader | CommitterHeader
| MessageLine | FileStatLine | SummaryStatsLine | Unclassified.

#[global] Instance role_eq_dec : EqDecision role.
Proof. solve_decision. Defined.

(** [line_list and _is_commit_hash(line_list[0])] *)
Definition is_compact (line : string) : bool :=
  if split1 line is tok :: _ then _is_commit_hash tok else false.

Definition classify (line : string) : role :=
  if is_compact line then CompactCommit
  else if startswith "commit " line then RecordBoundary
  else if startswith "Merge: " line then MergeParents
  else if startswith "Author: " line then AuthorHeader
  else if startswith "Date: " line then DateHeader
  else if startswith "AuthorDate: " line then AuthorDateHeader
  else if startswith "CommitDate: " line then CommitDateHeader
  else if startswith "Commit: " line then CommitterHeader
  else if startswith "    " line then MessageLine
  else if startswith " " line && negb (contains "changed, " line)
       then FileStatLine
  else if startswith " " line && contains "changed, " line
       then SummaryStatsLine
  else Unclassified.

(** [line_list[1]], when there is one *)
Definition rest_of (line : string) : option string := split1 line !! 1.

(** The whole of [parse] on the list of lines, without the [has_data]
    test. *)
Definition parse_lines (lines : list string) : result (list dict) :=
  st ← run_lines lines init;
  st' ← (if truthy (cur st) then seal st else Ok st);
  Ok (contents st').

(** *** Which inputs make [parse] raise

    Whether a line raises on its own: [line_list[1]] must exist for
    the roles that read it, [values[1]] for the two identity lines, and
    the summary pattern must match a summary line. *)
Definition well_formed (line : string) : bool :=
  match classify line with
  | CompactCommit | RecordBoundary | MergeParents | DateHeader
  | AuthorDateHeader | CommitDateHeader => bool_decide (is_Some (rest_of line))
  | AuthorHeader | CommitterHeader =>
      if rest_of line is Some rest
      then bool_decide (2 ≤ List.length (rsplit1 rest))%nat else false
  | SummaryStatsLine => bool_decide (is_Some (re_match changes_pattern line))
  | MessageLine | FileStatLine | Unclassified => true
  end.

(** What the seal needs to know of the parser's state: whether
    [output_line] is non-empty, whether it has a [stats] key, and
    whether [file_list] is non-empty. *)
Record shape : Set := Shape {
  opened : bool;
  with_stats : bool;
  pending_files : bool
}.

Definition shape0 : shape :=
  {| opened := false; with_stats := false; pending_files := false |}.

(** The seal raises [KeyError] on buffered file names without [stats]. *)
Definition seal_ok (sh : shape) : bool :=
  negb (pending_files sh) || with_stats sh.

Definition shape_step (sh : shape) (line : string) : option shape :=
  if negb (well_formed line) then None
  else
    match classify line with
    | CompactCommit =>
        Some {| opened := true; with_stats := false;
                pending_files := pending_files sh |}
    | RecordBoundary =>
        if opened sh then
          if seal_ok sh
          then Some {| opened := true; with_stats := false;
                       pending_files := false |}
          else None
        else Some {| opened := true; with_stats := with_stats sh;
                     pending_files := pending_files sh |}
    | MergeParents | AuthorHeader | DateHeader | AuthorDateHeader
    | CommitDateHeader | CommitterHeader =>
        Some {| opened := true; with_stats := with_stats sh;
                pending_files := pending_files sh |}
    | MessageLine | Unclassified => Some sh
    | FileStatLine =>
        Some {| opened := opened sh; with_stats := with_stats sh;
                pending_files := true |}
    | SummaryStatsLine =>
        Some {| opened := true; with_stats := true;
                pending_files := pending_files sh |}
    end.

Fixpoint shape_run (sh : shape) (lines : list string) : option shape :=
  match lines with
  | [] => Some sh
  | line :: rest => sh' ← shape_step sh line; shape_run sh' rest
  end.

Definition accepts (lines : list string) : bool :=
  match shape_run shape0 lines with
  | Some sh => negb (opened sh) || seal_ok sh
  | None => false
  end.

(** *** Vocabulary of the statements about records *)

Definition has_commit (d : dict) : Prop := is_Some (d !! "commit").

(** The roles that leave [output_line] as it is. *)
Definition keeps_record (line : string) : bool :=
  match classify line with
  | MessageLine | FileStatLine | Unclassified => true
  | _ => false
  end.

(** No header or summary line comes before the first commit line. *)
Fixpoint orphan_free (lines : list string) : bool :=
  match lines with
  | [] => true
  | line :: rest =>
      if keeps_record line then orphan_free rest
      else match classify line with
           | CompactCommit | RecordBoundary => true
           | _ => false
           end
  end.

(** The lines that follow a boundary line, cut at every further
    boundary line: one list of lines per record of a multi-line
    listing.  [seg] holds the lines of the record being read. *)
Fixpoint segments_from (seg : list string) (lines : list string)
  : list (list string) :=
  match lines with
  | [] => [seg]
  | line :: rest =>
      if decide (classify line = RecordBoundary)
      then seg :: segments_from [] rest
      else segments_from (seg ++ [line]) rest
  end.

Definition segments (lines : list string) : list (list string) :=
  segments_from [] lines.

Definition lines_of_role (r : role) (seg : list string) : list string :=
  filter (λ line, classify line = r) seg.

(** The message the parser gives a record whose lines are [seg]. *)
Definition message_of (seg : list string) : option value :=
  let contents := strip <$> lines_of_role MessageLine seg in
  if nonempty contents then Some (VStr (join newline contents)) else None.

(** The content of a message line as section 4.1 words it: the line
    without its four characters of indentation. *)
Definition spec_message_content (line : string) : string :=
  str (drop 4 (chars line)).

Definition spec_message_of (seg : list string) : option value :=
  let contents := spec_message_content <$> lines_of_role MessageLine seg in
  if nonempty contents then Some (VStr (join newline contents)) else None.

(** The merge key of a record whose lines are [seg]: absent when [seg]
    has no merge line, and else what follows the first token of the last
    merge line. *)
Definition merge_spec (d : dict) (seg : list string) : Prop :=
  match last (lines_of_role MergeParents seg) with
  | Some line => ∃ v, rest_of line = Some v ∧ d !! "merge" = Some (VStr v)
  | None => d !! "merge" = None
  end.

(** A lower-case hexadecimal digit, and the compact test as section 4.1
    words it. *)
Definition is_hex (c : ascii) : bool := in_range "0" "9" c || in_range "a" "f" c.

Definition spec_is_commit_hash (tok : string) : bool :=
  (String.length tok =? 40)%nat && forallb is_hex (chars tok).

(** *** Well-formed states, and the states a shape stands for *)

(** [output_line] names an object of the store, and so does every
    element of [raw_output]. *)
Definition wf (st : state) : Prop :=
  output_line st < length (heap st) ∧
  Forall (λ a, a < length (heap st)) (raw_output st).

Definition stats_agree (d : dict) (b : bool) : Prop :=
  match d !! "stats" with
  | Some (VStats _) => b = true
  | Some (VStr _) => False
  | None => b = false
  end.

Record sim (st : state) (sh : shape) : Prop := Sim {
  sim_wf : wf st;
  sim_opened : opened sh = truthy (cur st);
  sim_stats : stats_agree (cur st) (with_stats sh);
  sim_pending : pending_files sh = nonempty (file_list st)
}.

(** Text in which [has_data] finds nothing: white space only. *)
Definition blank (s : string) : Prop := drop_while isspace s = EmptyString.

Definition sealed_message (st : state) : state :=
  if nonempty (message_lines st)
  then setitem "message" (VStr (join newline (message_lines st))) st
  else st.

Definition opens_record (r : role) : Prop :=
  r = CompactCommit ∨ r = RecordBoundary.

(** [st'] differs from [st] in the dictionary [output_line] names, which
    has gained keys, and in the buffers at most. *)
Definition same_record (st st' : state) : Prop :=
  wf st' ∧
  raw_output st' = raw_output st ∧
  output_line st' = output_line st ∧
  length (heap st') = length (heap st) ∧
  (∀ a, a ≠ output_line st → at_addr (heap st') a = at_addr (heap st) a) ∧
  (∀ k, is_Some (cur st !! k) → is_Some (cur st' !! k)).

(** Every element of [raw_output] but the first has a commit, and so
    has [output_line] once [raw_output] is not empty. *)
Definition commits_after_first (st : state) : Prop :=
  wf st ∧
  Forall (λ a, has_commit (at_addr (heap st) a)) (tail (raw_output st)) ∧
  (raw_output st ≠ [] → has_commit (cur st)).

(** Every element of [raw_output] has a commit, and so has
    [output_line]. *)
Definition commits_everywhere (st : state) : Prop :=
  wf st ∧
  Forall (λ a, has_commit (at_addr (heap st) a)) (raw_output st) ∧
  has_commit (cur st).

(** [output_line] names an object of the store that is not an element of
    [raw_output]. *)
Definition unshared (st : state) : Prop :=
  wf st ∧ Forall (λ a, a ≠ output_line st) (raw_output st).

(** What the lines of a record decide of its dictionary. *)
Definition record_fields (d : dict) (seg : list string) : Prop :=
  merge_spec d seg ∧ d !! "message" = message_of seg.

(** The state between two lines of a multi-line listing, [seg] being the
    lines read since the last boundary line: [output_line] is not an
    element of [raw_output], it has a commit, and its merge key and the
    message buffer are those of [seg]. *)
Definition reading (st : state) (seg : list string) : Prop :=
  wf st ∧
  Forall (λ a, a ≠ output_line st) (raw_output st) ∧
  has_commit (cur st) ∧
  merge_spec (cur st) seg ∧
  cur st !! "message" = None ∧
  message_lines st = strip <$> lines_of_role MessageLine seg.

(** [output_line[key] = line_list[1]], when there is a [line_list[1]] *)
Definition rest_field (key line : string) (d : dict) : dict :=
  match rest_of line with
  | Some v => <[key := VStr v]> d
  | None => d
  end.

(** The two assignments of an [Author: ] or [Commit: ] line, when
    [line_list[1]] has two tokens. *)
Definition identity_fields (name_key email_key line : string) (d : dict)
  : dict :=
  match rest_of line with
  | Some rest =>
      match rsplit1 rest with
      | name :: email :: _ =>
          <[email_key := VStr (strip_char ">" (strip_char "<" email))]>
            (<[name_key := VStr name]> d)
      | _ => d
      end
  | None => d
  end.

(** The dictionary a summary line builds, when the pattern matches. *)
Definition summary_stats (line : string) : option stats :=
  changes ← re_match changes_pattern line;
  Some {| files_changed := or_zero (changes !! "files");
          insertions := or_zero (changes !! "insertions");
          deletions := or_zero (changes !! "deletions");
          files := [] |}.

(** What a line that opens no record assigns to [output_line]. *)
Definition assign (line : string) (d : dict) : dict :=
  match classify line with
  | MergeParents => rest_field "merge" line d
  | AuthorHeader => identity_fields "author" "author_email" line d
  | DateHeader | AuthorDateHeader => rest_field "date" line d
  | CommitDateHeader => rest_field "commit_by_date" line d
  | CommitterHeader => identity_fields "commit_by" "commit_by_email" line d
  | SummaryStatsLine =>
      match summary_stats line with
      | Some s => <["stats" := VStats s]> d
      | None => d
      end
  | _ => d
  end.

(** [line.split('|')[0].strip()] *)
Definition file_name (line : string) : string :=
  strip (before_char "|" line).

Definition with_files (s : stats) (names : list string) : stats :=
  {| files_changed := files_changed s; insertions := insertions s;
     deletions := deletions s; files := files s ++ [names] |}.

(** What the seal makes of a dictionary and the two buffers, when it does
    not raise. *)
Definition sealed_dict (d : dict) (msgs names : list string) : dict :=
  let d1 := if nonempty msgs
            then <["message" := VStr (join newline msgs)]> d else d in
  if nonempty names then
    match d1 !! "stats" with
    | Some (VStats s) => <["stats" := VStats (with_files s names)]> d1
    | _ => d1
    end
  else d1.

(** The record of a commit line whose [line_list[1]] is [commit] and of
    the lines [seg] that follow it up to the next commit line. *)
Definition record_of (commit : string) (seg : list string) : dict :=
  sealed_dict
    (foldl (λ d line, assign line d) {[ "commit" := VStr commit ]} seg)
    (strip <$> lines_of_role MessageLine seg)
    (file_name <$> lines_of_role FileStatLine seg).

(** The commit lines of a listing, each with the lines that follow it
    up to the next one. *)
Fixpoint records_from (b : string) (seg : list string) (lines : list string)
  : list (string * list string) :=
  match lines with
  | [] => [(b, seg)]
  | line :: rest =>
      if decide (classify line = RecordBoundary)
      then (b, seg) :: records_from line [] rest
      else records_from b (seg ++ [line]) rest
  end.

(** The state between two lines of a multi-line listing, as a function
    of the lines [seg] read since the commit line of [commit]. *)
Definition building (st : state) (commit : string) (seg : list string)
  : Prop :=
  unshared st ∧
  cur st = foldl (λ d line, assign line d) {[ "commit" := VStr commit ]} seg ∧
  message_lines st = strip <$> lines_of_role MessageLine seg ∧
  file_list st = file_name <$> lines_of_role FileStatLine seg ∧
  Forall (λ line, well_formed line = true) seg.

(** What a listing that [parse] accepts shows of the lines of one
    record: none of them raises, and they hold a summary line when they
    hold a file line. *)
Definition record_lines_ok (commit : string) (seg : list string) : Prop :=
  Forall (λ line, well_formed line = true) seg ∧
  (lines_of_role FileStatLine seg ≠ [] →
   ∃ s, foldl (λ d line, assign line d) {[ "commit" := VStr commit ]} seg
        !! "stats" = Some (VStats s)).

(** A record of the output and the lines it comes from. *)
Definition record_from_lines (d : dict) (r : string * list string) : Prop :=
  ∃ c, rest_of r.1 = Some c ∧ d = record_of c r.2 ∧ record_lines_ok c r.2.

(** The keys a line of a given role assigns. *)
Definition keys_of_role (r : role) : list string :=
  match r with
  | MergeParents => ["merge"]
  | AuthorHeader => ["author"; "author_email"]
  | DateHeader | AuthorDateHeader => ["date"]
  | CommitDateHeader => ["commit_by_date"]
  | CommitterHeader => ["commit_by"; "commit_by_email"]
  | SummaryStatsLine => ["stats"]
  | _ => []
  end.

Definition writes (k : string) (line : string) : Prop :=
  k ∈ keys_of_role (classify line).

(** The two keys of an identity line of role [r], in a record whose
    lines are [seg]. *)
Definition identity_spec (r : role) (name_key email_key : string)
           (d : dict) (seg : list string) : Prop :=
  match last (lines_of_role r seg) with
  | Some line =>
      ∃ rest name email,
        split1 line !! 1 = Some rest ∧ rsplit1 rest = [name; email] ∧
        d !! name_key = Some (VStr name) ∧
        d !! email_key = Some (VStr (strip_char ">" (strip_char "<" email)))
  | None => d !! name_key = None ∧ d !! email_key = None
  end.

(** A key that holds what follows the first token of the last line
    whose role is one of [roles]. *)
Definition rest_field_spec (roles : list role) (key : string)
           (d : dict) (seg : list string) : Prop :=
  match last (filter (λ line, classify line ∈ roles) seg) with
  | Some line => ∃ v, split1 line !! 1 = Some v ∧ d !! key = Some (VStr v)
  | None => d !! key = None
  end.

(** The [stats] of a record whose lines are [seg]: the counts of its
    last summary line, and in [files] one list with the names of all
    its file lines. *)
Definition stats_spec (d : dict) (seg : list string) : Prop :=
  let names := file_name <$> lines_of_role FileStatLine seg in
  match last (lines_of_role SummaryStatsLine seg) with
  | Some line =>
      ∃ changes,
        re_match changes_pattern line = Some changes ∧
        d !! "stats" =
          Some (VStats {| files_changed := or_zero (changes !! "files");
                          insertions := or_zero (changes !! "insertions");
                          deletions := or_zero (changes !! "deletions");
                          files := if nonempty names then [names] else [] |})
  | None => names = [] ∧ d !! "stats" = None
  end.

(** The keys whose values are strings. *)
Definition string_keys : list string :=
  [ "commit"; "message"; "merge"; "author"; "author_email"; "date";
    "commit_by_date"; "commit_by"; "commit_by_email" ].

(** A value fits its key: a string under a string key, and under
    [stats] a dictionary of counts with the property [P]. *)
Definition value_ok (P : stats → Prop) (k : string) (v : value) : Prop :=
  match v with
  | VStr _ => k ∈ string_keys
  | VStats s => k = "stats" ∧ P s
  end.

Definition schema_ok (P : stats → Prop) (d : dict) : Prop :=
  ∀ k v, d !! k = Some v → value_ok P k v.

(** The values of a dictionary have the types the schema gives them. *)
Definition typed : dict → Prop := schema_ok (λ _, True).

(** A non-empty string of decimal digits. *)
Definition is_digits (w : string) : bool :=
  negb (is_empty w) && forallb isdigit (chars w).

(** Every named group of the pattern is [(?P<name>\d+)]. *)
Fixpoint groups_of_digits (r : regex) : Prop :=
  match r with
  | Cat r1 r2 | Alt r1 r2 => groups_of_digits r1 ∧ groups_of_digits r2
  | Opt r1 | Plus r1 | Group None r1 => groups_of_digits r1
  | Group (Some _) r1 => r1 = Plus digit
  | Eps | Lit _ | Class _ => True
  end.

Definition digit_groups (g : groups) : Prop :=
  ∀ n w, g !! n = Some w → is_digits w = true.

Definition digit_counts (s : stats) : Prop :=
  is_digits (files_changed s) = true ∧
  is_digits (insertions s) = true ∧
  is_digits (deletions s) = true.

(** What in the lines [lines] makes [parse] raise [e]. *)
Definition cause (e : exn) (lines : list string) : Prop :=
  match e with
  | IndexError =>
      ∃ line, line ∈ lines ∧ classify line ≠ SummaryStatsLine ∧
              well_formed line = false
  | TypeError =>
      ∃ line, line ∈ lines ∧ classify line = SummaryStatsLine ∧
              re_match changes_pattern line = None
  | KeyError => ∃ line, line ∈ lines ∧ classify line = FileStatLine
  end.

(** Every element of [raw_output] is a non-empty dictionary. *)
Definition filled (st : state) : Prop :=
  wf st ∧ Forall (λ a, truthy (at_addr (heap st) a) = true) (raw_output st).

(** What the lines [seg] and the seal make of the dictionary [d0]. *)
Definition record_from (d0 : dict) (seg : list string) : dict :=
  sealed_dict
    (foldl (λ d line, assign line d) d0 seg)
    (strip <$> lines_of_role MessageLine seg)
    (file_name <$> lines_of_role FileStatLine seg).

(** The state after a compact line and the lines [seg]: [output_line]
    is the one element of [raw_output]. *)
Definition sharing (st : state) (d0 : dict) (seg : list string) : Prop :=
  wf st ∧ raw_output st = [output_line st] ∧
  cur st = foldl (λ d line, assign line d) d0 seg ∧
  message_lines st = strip <$> lines_of_role MessageLine seg ∧
  file_list st = file_name <$> lines_of_role FileStatLine seg.

(** *** Inputs used below *)

(** The hash of the comment in [_is_commit_hash]. *)
Definition hash40 : string := "0c55240e9da30ac4293cc324f1094de2abd3da91".

(** Forty characters, of which only the first is a hexadecimal digit. *)
Definition not_a_hash : string := "azzzzzzzzzzzzzzzzzzzzzzzzzzzzzzzzzzzzzzz".

(** The text whose lines are [ls]. *)
Definition text (ls : list string) : string := join newline ls.

Definition two_commits : string := text ["commit 1a2b"; "commit 3c4d"].

(** A merge commit and an ordinary one, in the medium format. *)
Definition merge_listing_rest : list string :=
  [ "Merge: 3c4d 5e6f";
    "Author: A U Thor <author@example.org>";
    "Date:   Mon Jan 1 00:00:00 2024 +0000";
    EmptyString;
    "    Merge branch";
    "      with a list  ";
    EmptyString;
    "commit 3c4d";
    "Author: A U Thor <author@example.org>";
    "Date:   Sun Dec 31 00:00:00 2023 +0000";
    EmptyString;
    "    fix bug" ].

Definition merge_listing : string := text ("commit 1a2b" :: merge_listing_rest).

Definition merge_listing_out : list dict :=
  [ {[ "commit" := VStr "1a2b";
       "merge" := VStr "3c4d 5e6f";
       "author" := VStr "A U Thor";
       "author_email" := VStr "author@example.org";
       "date" := VStr "Mon Jan 1 00:00:00 2024 +0000";
       "message" := VStr (text ["Merge branch"; "with a list"]) ]};
    {[ "commit" := VStr "3c4d";
       "author" := VStr "A U Thor";
       "author_email" := VStr "author@example.org";
       "date" := VStr "Sun Dec 31 00:00:00 2023 +0000";
       "message" := VStr "fix bug" ]} ].

(** Two commits in the fuller format, the first with a diffstat. *)
Definition stat_listing_rest : list string :=
  [ "Author:     A U Thor <author@example.org>";
    "AuthorDate: Mon Jan 1 00:00:00 2024 +0000";
    "Commit:     C O Mitter <committer@example.org>";
    "CommitDate: Tue Jan 2 00:00:00 2024 +0000";
    EmptyString;
    "    add files";
    EmptyString;
    " a.txt | 2 +-";
    " b.txt | 1 +";
    " 2 files changed, 2 insertions(+), 1 deletion(-)";
    EmptyString;
    "commit 3c4d";
    "Author:     A U Thor <author@example.org>";
    "AuthorDate: Sun Dec 31 00:00:00 2023 +0000";
    "Commit:     A U Thor <author@example.org>";
    "CommitDate: Sun Dec 31 00:00:00 2023 +0000";
    EmptyString;
    "    fix bug" ].

Definition stat_listing : string := text ("commit 1a2b" :: stat_listing_rest).

Definition stat_listing_out : list dict :=
  [ {[ "commit" := VStr "1a2b";
       "author" := VStr "A U Thor";
       "author_email" := VStr "author@example.org";
       "date" := VStr "Mon Jan 1 00:00:00 2024 +0000";
       "commit_by" := VStr "C O Mitter";
       "commit_by_email" := VStr "committer@example.org";
       "commit_by_date" := VStr "Tue Jan 2 00:00:00 2024 +0000";
       "message" := VStr "add files";
       "stats" := VStats {| files_changed := "2"; insertions := "2";
                            deletions := "1";
                            files := [["a.txt"; "b.txt"]] |} ]};
    {[ "commit" := VStr "3c4d";
       "author" := VStr "A U Thor";
       "author_email" := VStr "author@example.org";
       "date" := VStr "Sun Dec 31 00:00:00 2023 +0000";
       "commit_by" := VStr "A U Thor";
       "commit_by_email" := VStr "author@example.org";
       "commit_by_date" := VStr "Sun Dec 31 00:00:00 2023 +0000";
       "message" := VStr "fix bug" ]} ].

Definition compact_record (commit message : string) : dict :=
  {[ "commit" := VStr commit; "message" := VStr message ]}.

(** The dictionary the compact branch makes of a line, when the line
    takes that branch and has the two elements the branch reads. *)
Definition compact_line (line : string) : option dict :=
  match split1 line with
  | commit :: message :: _ =>
      if _is_commit_hash commit
      then Some (compact_record commit message) else None
  | _ => None
  end.

End GitLog.

(** * Properties of the parser *)

Module GitLogFacts.

Import PyStr Re GitLog.

(** ** The result monad *)

Lemma bind_Ok {A B : Type} (a : A) (f : A -> result B) :
  Ok a ≫= f = f a.
Proof. reflexivity. Qed.

Lemma bind_Ok_inv {A B : Type} (m : result A) (f : A -> result B) (b : B) :
  m ≫= f = Ok b → ∃ a, m = Ok a ∧ f a = Ok b.
Proof. destruct m as [a|e]; [eauto | discriminate]. Qed.

(** ** One test after the other: [process_line] by role *)

Lemma process_line_by_role (st : state) (line : string) :
  process_line st line =
  match classify line with
  | CompactCommit =>
      commit ← item (split1 line) 0;
      message ← item (split1 line) 1;
      Ok (append_output (bind_new (compact_record commit message) st))
  | RecordBoundary =>
      st1 ← (if truthy (cur st)
             then st' ← seal st; Ok (clear_buffers (bind_new ∅ st'))
             else Ok st);
      v ← item (split1 line) 1;
      Ok (setitem "commit" (VStr v) st1)
  | MergeParents =>
      v ← item (split1 line) 1; Ok (setitem "merge" (VStr v) st)
  | AuthorHeader =>
      rest ← item (split1 line) 1;
      name ← item (rsplit1 rest) 0;
      email ← item (rsplit1 rest) 1;
      Ok (setitem "author_email"
            (VStr (strip_char ">" (strip_char "<" email)))
            (setitem "author" (VStr name) st))
  | DateHeader | AuthorDateHeader =>
      v ← item (split1 line) 1; Ok (setitem "date" (VStr v) st)
  | CommitDateHeader =>
      v ← item (split1 line) 1; Ok (setitem "commit_by_date" (VStr v) st)
  | CommitterHeader =>
      rest ← item (split1 line) 1;
      name ← item (rsplit1 rest) 0;
      email ← item (rsplit1 rest) 1;
      Ok (setitem "commit_by_email"
            (VStr (strip_char ">" (strip_char "<" email)))
            (setitem "commit_by" (VStr name) st))
  | MessageLine => Ok (append_message (strip line) st)
  | FileStatLine => Ok (append_file (strip (before_char "|" line)) st)
  | SummaryStatsLine =>
      match re_match changes_pattern line with
      | None => Raise TypeError
      | Some changes =>
          Ok (setitem "stats"
                (VStats {| files_changed := or_zero (changes !! "files");
                           insertions := or_zero (changes !! "insertions");
                           deletions := or_zero (changes !! "deletions");
                           files := [] |}) st)
      end
  | Unclassified => Ok st
  end.
Proof.
  unfold process_line, classify, is_compact.
  destruct (if split1 line is _ :: _ then _ else false); [reflexivity|].
  destruct (startswith "commit " line); [reflexivity|].
  destruct (startswith "Merge: " line); [reflexivity|].
  destruct (startswith "Author: " line); [reflexivity|].
  destruct (startswith "Date: " line); [reflexivity|].
  destruct (startswith "AuthorDate: " line); [reflexivity|].
  destruct (startswith "CommitDate: " line); [reflexivity|].
  destruct (startswith "Commit: " line); [reflexivity|].
  destruct (startswith "    " line); [reflexivity|].
  destruct (startswith " " line && negb (contains "changed, " line));
    [reflexivity|].
  destruct (startswith " " line && contains "changed, " line); reflexivity.
Qed.

(** ** The store *)

Lemma at_addr_alter_eq (f : dict → dict) (h : list dict) (a : addr) :
  a < length h → at_addr (alter f a h) a = f (at_addr h a).
Proof.
  intros Hlt. unfold at_addr. rewrite list_lookup_alter_eq.
  destruct (lookup_lt_is_Some_2 h a Hlt) as [d Hd]. by rewrite Hd.
Qed.

Lemma at_addr_alter_ne (f : dict → dict) (h : list dict) (a b : addr) :
  a ≠ b → at_addr (alter f a h) b = at_addr h b.
Proof. intros Hne. unfold at_addr. by rewrite list_lookup_alter_ne. Qed.

Lemma at_addr_app_l (h : list dict) (d : dict) (a : addr) :
  a < length h → at_addr (h ++ [d]) a = at_addr h a.
Proof. intros Hlt. unfold at_addr. by rewrite lookup_app_l. Qed.

Lemma at_addr_app_new (h : list dict) (d : dict) :
  at_addr (h ++ [d]) (length h) = d.
Proof. unfold at_addr. by rewrite list_lookup_middle. Qed.

Lemma cur_setitem (k : string) (v : value) (st : state) :
  wf st → cur (setitem k v st) = <[k:=v]> (cur st).
Proof. intros [Hlt _]. unfold cur; simpl. by apply at_addr_alter_eq. Qed.

Lemma cur_bind_new (d : dict) (st : state) : cur (bind_new d st) = d.
Proof. unfold cur; simpl. apply at_addr_app_new. Qed.

Lemma wf_setitem (k : string) (v : value) (st : state) :
  wf st → wf (setitem k v st).
Proof.
  intros [Hlt Hall]. split; simpl; by rewrite length_alter.
Qed.

Lemma wf_bind_new (d : dict) (st : state) : wf st → wf (bind_new d st).
Proof.
  intros [Hlt Hall]. split; simpl; rewrite length_app; simpl; [lia|].
  eapply Forall_impl; [exact Hall|]. simpl. intros; lia.
Qed.

Lemma wf_append_output (st : state) : wf st → wf (append_output st).
Proof.
  intros [Hlt Hall]. split; simpl; [done|].
  apply Forall_app. split; [done|]. by constructor.
Qed.

Lemma wf_init : wf init.
Proof. split; simpl; [lia | constructor]. Qed.

Lemma truthy_insert (k : string) (v : value) (d : dict) :
  truthy (<[k:=v]> d) = true.
Proof.
  unfold truthy. rewrite bool_decide_eq_false_2; [done|].
  apply insert_non_empty.
Qed.

Lemma truthy_empty : truthy (∅ : dict) = false.
Proof. reflexivity. Qed.

Lemma truthy_false (d : dict) : truthy d = false → d = ∅.
Proof.
  unfold truthy. intros H. apply negb_false_iff in H.
  by apply bool_decide_eq_true in H.
Qed.

(** ** The seal *)

Lemma seal_unfold (st : state) :
  seal st =
  st2 ← (if nonempty (file_list st)
         then append_files (sealed_message st) else Ok (sealed_message st));
  Ok (append_output st2).
Proof.
  unfold seal, sealed_message. by destruct (nonempty (message_lines st)).
Qed.

Lemma wf_sealed_message (st : state) : wf st → wf (sealed_message st).
Proof.
  unfold sealed_message. destruct (nonempty _); [apply wf_setitem | done].
Qed.

Lemma cur_sealed_message_ne (st : state) (k : string) :
  wf st → k ≠ "message" → cur (sealed_message st) !! k = cur st !! k.
Proof.
  intros Hwf Hk. unfold sealed_message. destruct (nonempty _); [|done].
  rewrite cur_setitem by done. by rewrite lookup_insert_ne.
Qed.

(** ** Shapes follow states *)

Lemma sim_setitem_str st sh k v :
  sim st sh → k ≠ "stats" →
  sim (setitem k (VStr v) st)
      {| opened := true; with_stats := with_stats sh;
         pending_files := pending_files sh |}.
Proof.
  intros [Hwf Hop Hst Hpe] Hk. split; simpl.
  - by apply wf_setitem.
  - rewrite cur_setitem by done. by rewrite truthy_insert.
  - unfold stats_agree in *. rewrite cur_setitem by done.
    by rewrite lookup_insert_ne.
  - done.
Qed.

Lemma sim_setitem_stats st sh s :
  sim st sh →
  sim (setitem "stats" (VStats s) st)
      {| opened := true; with_stats := true;
         pending_files := pending_files sh |}.
Proof.
  intros [Hwf Hop Hst Hpe]. split; simpl.
  - by apply wf_setitem.
  - rewrite cur_setitem by done. by rewrite truthy_insert.
  - unfold stats_agree. rewrite cur_setitem by done.
    by rewrite lookup_insert_eq.
  - done.
Qed.

Lemma seal_sim st sh :
  sim st sh →
  match seal st with
  | Ok st' => seal_ok sh = true ∧ wf st'
  | Raise _ => seal_ok sh = false
  end.
Proof.
  intros [Hwf Hop Hst Hpe]. rewrite seal_unfold. unfold seal_ok.
  rewrite Hpe. destruct (nonempty (file_list st)); simpl.
  - unfold append_files. unfold stats_agree in Hst.
    rewrite cur_sealed_message_ne by done.
    destruct (cur st !! "stats") as [[?|s]|]; simpl; try done.
    split; [done|].
    by apply wf_append_output, wf_setitem, wf_sealed_message.
  - split; [done|]. by apply wf_append_output, wf_sealed_message.
Qed.

Lemma sim_reopened st :
  wf st → sim (clear_buffers (bind_new ∅ st)) shape0.
Proof.
  intros Hwf. split; simpl; try done.
  - apply (wf_bind_new ∅) in Hwf. exact Hwf.
  - unfold cur; simpl. by rewrite at_addr_app_new.
  - unfold stats_agree, cur; simpl. by rewrite at_addr_app_new.
Qed.

Lemma sim_init : sim init shape0.
Proof. split; try done. apply wf_init. Qed.

Lemma cur_append_output st : cur (append_output st) = cur st.
Proof. reflexivity. Qed.

Lemma sim_compact st sh commit msg :
  sim st sh →
  sim (append_output (bind_new (compact_record commit msg) st))
      {| opened := true; with_stats := false;
         pending_files := pending_files sh |}.
Proof.
  intros [Hwf Hop Hst Hpe]. split; simpl.
  - by apply wf_append_output, wf_bind_new.
  - rewrite cur_append_output, cur_bind_new. unfold compact_record.
    by rewrite truthy_insert.
  - unfold stats_agree. rewrite cur_append_output, cur_bind_new.
    unfold compact_record. by simplify_map_eq.
  - done.
Qed.

Lemma sim_append_message st sh s :
  sim st sh → sim (append_message s st) sh.
Proof. intros [Hwf Hop Hst Hpe]. by split. Qed.

Lemma sim_append_file st sh s :
  sim st sh →
  sim (append_file s st)
      {| opened := opened sh; with_stats := with_stats sh;
         pending_files := true |}.
Proof.
  intros [Hwf Hop Hst Hpe]. split; try done.
  simpl. by destruct (file_list st).
Qed.

Lemma step_sim st sh line :
  sim st sh →
  match process_line st line, shape_step sh line with
  | Ok st', Some sh' => sim st' sh'
  | Raise _, None => True
  | _, _ => False
  end.
Proof.
  intros Hsim. rewrite process_line_by_role.
  unfold shape_step, well_formed, rest_of, item.
  destruct (classify line) eqn:Hrole.
  - (* compact *)
    destruct (split1 line) as [|tok [|msg ?]]; simpl; try done.
    by apply sim_compact.
  - (* boundary *)
    destruct (split1 line !! 1) as [v|] eqn:H1; simpl.
    + pose proof (seal_sim st sh Hsim) as Hseal.
      rewrite (sim_opened _ _ Hsim).
      destruct (truthy (cur st)) eqn:Htr; simpl.
      * destruct (seal st) as [st'|e]; simpl.
        -- destruct Hseal as [-> Hwf']. simpl.
           apply (sim_setitem_str _ shape0); [by apply sim_reopened | done].
        -- by rewrite Hseal.
      * by apply (sim_setitem_str _ sh).
    + destruct (if truthy (cur st) then _ else _); done.
  - destruct (split1 line !! 1) as [v|] eqn:H1; simpl; [|done].
    by apply sim_setitem_str.
  - destruct (split1 line !! 1) as [rest|] eqn:H1; simpl; [|done].
    destruct (rsplit1 rest) as [|name [|email ?]]; simpl; try done.
    apply (sim_setitem_str _ {| opened := true; with_stats := with_stats sh;
         pending_files := pending_files sh |}); [|done].
    by apply sim_setitem_str.
  - destruct (split1 line !! 1) as [v|] eqn:H1; simpl; [|done].
    by apply sim_setitem_str.
  - destruct (split1 line !! 1) as [v|] eqn:H1; simpl; [|done].
    by apply sim_setitem_str.
  - destruct (split1 line !! 1) as [v|] eqn:H1; simpl; [|done].
    by apply sim_setitem_str.
  - destruct (split1 line !! 1) as [rest|] eqn:H1; simpl; [|done].
    destruct (rsplit1 rest) as [|name [|email ?]]; simpl; try done.
    apply (sim_setitem_str _ {| opened := true; with_stats := with_stats sh;
         pending_files := pending_files sh |}); [|done].
    by apply sim_setitem_str.
  - by apply sim_append_message.
  - by apply sim_append_file.
  - destruct (re_match changes_pattern line) as [changes|]; simpl; [|done].
    by apply sim_setitem_stats.
  - simpl. by destruct sh.
Qed.


Lemma run_sim lines : ∀ st sh,
  sim st sh →
  match run_lines lines st, shape_run sh lines with
  | Ok st', Some sh' => sim st' sh'
  | Raise _, None => True
  | _, _ => False
  end.
Proof.
  induction lines as [|line rest IH]; intros st sh Hsim; simpl; [done|].
  pose proof (step_sim st sh line Hsim) as Hstep.
  destruct (process_line st line) as [st1|e],
           (shape_step sh line) as [sh1|]; simpl; try done.
  by apply IH.
Qed.

Lemma parse_lines_accepts (lines : list string) :
  (∃ out, parse_lines lines = Ok out) ↔ accepts lines = true.
Proof.
  unfold parse_lines, accepts.
  pose proof (run_sim lines init shape0 sim_init) as Hrun.
  destruct (run_lines lines init) as [st|e],
           (shape_run shape0 lines) as [sh|]; simpl; try done.
  - rewrite (sim_opened _ _ Hrun).
    pose proof (seal_sim st sh Hrun) as Hseal.
    destruct (truthy (cur st)); simpl.
    + destruct (seal st) as [st'|e]; simpl.
      * destruct Hseal as [-> _]. split; eauto.
      * rewrite Hseal. split; [intros [out ?]|]; done.
    + split; eauto.
  - split; [intros [out ?]|]; done.
Qed.

(** ** Text without data *)

Lemma blank_cons c s : blank (String c s) ↔ isspace c = true ∧ blank s.
Proof.
  unfold blank; simpl. destruct (isspace c); split; try done.
  - by intros [_ ?].
  - by intros [? _].
Qed.

Lemma blank_str (l : list ascii) :
  Forall (λ c, isspace c = true) l → blank (str l).
Proof.
  induction 1 as [|c l Hc _ IH]; [done|].
  unfold str; simpl. by apply blank_cons.
Qed.

Lemma splitlines_from_blank (n : nat) : ∀ s acc,
  (String.length s ≤ n)%nat →
  Forall (λ c, isspace c = true) acc → blank s →
  Forall blank (splitlines_from acc s).
Proof.
  induction n as [|n IH]; intros [|c s] acc Hn Hacc Hs; simpl in *;
    try lia.
  - destruct acc; constructor; [|constructor].
    apply blank_str. by apply Forall_rev.
  - destruct acc; constructor; [|constructor].
    apply blank_str. by apply Forall_rev.
  - apply blank_cons in Hs as [Hc Hs].
    destruct (islinebreak c).
    + constructor; [apply blank_str; by apply Forall_rev|].
      destruct s as [|c' s']; [constructor|].
      destruct (Ascii.eqb c "013" && Ascii.eqb c' "010").
      * apply blank_cons in Hs as [_ Hs].
        apply IH; [simpl in Hn; lia | apply Forall_nil_2 | done].
      * apply IH; [lia | apply Forall_nil_2 | done].
    + apply IH; [lia | by constructor | done].
Qed.

Lemma splitlines_blank (s : string) :
  blank s → Forall blank (splitlines s).
Proof.
  intros Hs. by apply (splitlines_from_blank (String.length s)).
Qed.

Lemma has_data_false (data : string) : has_data data = false → blank data.
Proof.
  unfold has_data, all_space, blank.
  destruct data as [|c s]; [done|].
  by destruct (drop_while isspace (String c s)).
Qed.

Lemma blank_split1 (s : string) : blank s → split1 s = [].
Proof. unfold blank, split1. by intros ->. Qed.

Lemma blank_startswith (p s : string) (c : ascii) :
  isspace c = false → blank s → startswith (String c p) s = false.
Proof.
  intros Hc Hs. destruct s as [|b s]; [done|]. simpl.
  apply blank_cons in Hs as [Hb _].
  destruct (Ascii.eqb_spec c b) as [->|]; [congruence | done].
Qed.

Lemma blank_contains (p s : string) (c : ascii) :
  isspace c = false → blank s → contains (String c p) s = false.
Proof.
  intros Hc. induction s as [|b s IH]; intros Hs; [done|].
  cbn [contains]. rewrite (blank_startswith _ _ _ Hc Hs).
  apply blank_cons in Hs as [_ Hs]. by rewrite IH.
Qed.

Lemma blank_keeps_record (line : string) :
  blank line → keeps_record line = true.
Proof.
  intros Hb. unfold keeps_record, classify, is_compact.
  rewrite (blank_split1 _ Hb).
  rewrite (blank_startswith _ line "c" eq_refl Hb).
  rewrite (blank_startswith _ line "M" eq_refl Hb).
  rewrite !(blank_startswith _ line "A" eq_refl Hb).
  rewrite (blank_startswith _ line "D" eq_refl Hb).
  rewrite !(blank_startswith _ line "C" eq_refl Hb).
  rewrite (blank_contains _ line "c" eq_refl Hb).
  destruct (startswith "    " line); [done|].
  destruct (startswith " " line); done.
Qed.

(** The lines that leave [output_line] as it is never raise. *)
Lemma keeps_record_step (st : state) (line : string) :
  keeps_record line = true →
  ∃ st', process_line st line = Ok st' ∧ heap st' = heap st ∧
         raw_output st' = raw_output st ∧ output_line st' = output_line st.
Proof.
  unfold keeps_record. rewrite process_line_by_role.
  destruct (classify line); try done; eauto.
Qed.

Lemma keeps_record_run (lines : list string) : ∀ st,
  Forall (λ line, keeps_record line = true) lines →
  ∃ st', run_lines lines st = Ok st' ∧ heap st' = heap st ∧
         raw_output st' = raw_output st ∧ output_line st' = output_line st.
Proof.
  induction lines as [|line rest IH]; intros st Hall; simpl; [eauto|].
  apply Forall_cons in Hall as [Hline Hrest].
  destruct (keeps_record_step st line Hline) as (st1 & -> & Hh & Hr & Ho).
  rewrite bind_Ok.
  destruct (IH st1 Hrest) as (st2 & -> & Hh2 & Hr2 & Ho2).
  exists st2. repeat split; congruence.
Qed.

(** The [has_data] test changes nothing: text without data has lines
    that open no record. *)
Lemma parse_unguarded (data : string) (raw quiet : bool) :
  parse data raw quiet = parse_lines (splitlines data).
Proof.
  unfold parse, parse_state, parse_lines, _process.
  destruct (has_data data) eqn:Hdata.
  - destruct (run_lines (splitlines data) init) as [st|e]; [|done].
    rewrite !bind_Ok.
    destruct (if truthy (cur st) then seal st else Ok st); [|done].
    rewrite !bind_Ok. by destruct raw.
  - apply has_data_false, splitlines_blank in Hdata.
    destruct (keeps_record_run (splitlines data) init)
      as (st & -> & Hh & Hr & Ho).
    { eapply Forall_impl; [exact Hdata|]. apply blank_keeps_record. }
    rewrite !bind_Ok.
    assert (cur st = ∅) as Hcur by (unfold cur; by rewrite Hh, Ho).
    rewrite Hcur, truthy_empty, !bind_Ok.
    unfold contents. rewrite Hr. simpl. by destruct raw.
Qed.

(** ** When [parse] returns *)

(** C1, as the code has it: [parse] is a total function of its input,
    and it returns a sequence of records exactly when the lines pass
    [accepts]: every line that reads [line_list[1]] or [values[1]] has
    it, every summary line matches the pattern, and no record is sealed
    with buffered file names and no [stats].  On every other input it
    raises, and nothing is returned.  A line that matches no role never
    raises and leaves the state as it is. *)
Theorem parse_returns_iff_accepted (data : string) (raw quiet : bool) :
  ((∃ out, parse data raw quiet = Ok out) ↔ accepts (splitlines data) = true)
  ∧ ((∃ e, parse data raw quiet = Raise e) ↔ accepts (splitlines data) = false)
  ∧ (∀ st line, classify line = Unclassified → process_line st line = Ok st).
Proof.
  rewrite parse_unguarded.
  pose proof (parse_lines_accepts (splitlines data)) as Hacc.
  split; [exact Hacc|]. split.
  - destruct (parse_lines (splitlines data)) as [out|e].
    + assert (accepts (splitlines data) = true) as -> by (apply Hacc; eauto).
      split; [intros [e ?]|]; done.
    + destruct (accepts (splitlines data)).
      * destruct Hacc as [_ Hacc]. destruct Hacc as [out ?]; done.
      * split; eauto.
  - intros st line Hrole. rewrite process_line_by_role. by rewrite Hrole.
Qed.

Lemma parse_returns_iff_accepted_witness :
  (∃ out, parse merge_listing false false = Ok out) ∧
  process_line init EmptyString = Ok init.
Proof.
  destruct (parse_returns_iff_accepted merge_listing false false)
    as (Hreturns & _ & Hnorole).
  split.
  - apply Hreturns. vm_compute. reflexivity.
  - apply Hnorole. vm_compute. reflexivity.
Defined.

(** C1 fails as stated: a line that holds a hash and nothing else makes
    [line_list[1]] raise. *)
Lemma parse_raises_on_bare_hash :
  parse hash40 false false = Raise IndexError.
Proof. vm_compute. reflexivity. Qed.


(** ** What one line does to the store *)

Lemma at_addr_setitem_ne k v st a :
  a ≠ output_line st → at_addr (heap (setitem k v st)) a = at_addr (heap st) a.
Proof. intros Hne. simpl. by apply at_addr_alter_ne. Qed.

Lemma seal_Ok (st st2 : state) :
  wf st → seal st = Ok st2 →
  wf st2 ∧
  raw_output st2 = (raw_output st ++ [output_line st])%list ∧
  output_line st2 = output_line st ∧
  length (heap st2) = length (heap st) ∧
  (∀ a, a ≠ output_line st → at_addr (heap st2) a = at_addr (heap st) a) ∧
  (∀ k, k ≠ "message" → k ≠ "stats" → cur st2 !! k = cur st !! k) ∧
  cur st2 !! "message" =
    (if nonempty (message_lines st)
     then Some (VStr (join newline (message_lines st)))
     else cur st !! "message").
Proof.
  intros Hwf. rewrite seal_unfold.
  assert (wf (sealed_message st)) as Hwf1 by by apply wf_sealed_message.
  assert (output_line (sealed_message st) = output_line st) as Ho1.
  { unfold sealed_message. by destruct (nonempty _). }
  assert (raw_output (sealed_message st) = raw_output st) as Hr1.
  { unfold sealed_message. by destruct (nonempty _). }
  assert (length (heap (sealed_message st)) = length (heap st)) as Hl1.
  { unfold sealed_message. destruct (nonempty _); [|done].
    simpl. by rewrite length_alter. }
  assert (∀ a, a ≠ output_line st →
            at_addr (heap (sealed_message st)) a = at_addr (heap st) a) as Hf1.
  { intros a Ha. unfold sealed_message. destruct (nonempty _); [|done].
    by apply at_addr_setitem_ne. }
  assert (cur (sealed_message st) !! "message" =
            (if nonempty (message_lines st)
             then Some (VStr (join newline (message_lines st)))
             else cur st !! "message")) as Hm1.
  { unfold sealed_message. destruct (nonempty _); [|done].
    rewrite cur_setitem by done. by rewrite lookup_insert_eq. }
  destruct (nonempty (file_list st)).
  - unfold append_files.
    destruct (cur (sealed_message st) !! "stats") as [[?|s]|]; try done.
    rewrite bind_Ok. intros [= <-].
    split; [by apply wf_append_output, wf_setitem|].
    split; [simpl; by rewrite Hr1, Ho1|].
    split; [done|].
    split; [simpl; by rewrite length_alter|].
    split.
    { intros a Ha. simpl. rewrite at_addr_alter_ne by congruence.
      by apply Hf1. }
    split.
    { intros k Hk1 Hk2.
      change (cur (append_output ?s)) with (cur s).
      rewrite cur_setitem by done. rewrite lookup_insert_ne by done.
      by apply cur_sealed_message_ne. }
    change (cur (append_output ?s)) with (cur s).
    rewrite cur_setitem by done. by rewrite lookup_insert_ne.
  - rewrite bind_Ok. intros [= <-].
    split; [by apply wf_append_output|].
    split; [simpl; by rewrite Hr1, Ho1|].
    repeat split; try done.
    intros k Hk1 Hk2. by apply cur_sealed_message_ne.
Qed.

Lemma same_record_refl st : wf st → same_record st st.
Proof. intros Hwf. by split_and!. Qed.

Lemma same_record_trans st1 st2 st3 :
  same_record st1 st2 → same_record st2 st3 → same_record st1 st3.
Proof.
  intros (? & Hr & Ho & Hl & Hf & Hk) (? & Hr' & Ho' & Hl' & Hf' & Hk').
  split_and!; try congruence.
  - intros a Ha. rewrite Hf' by congruence. by apply Hf.
  - intros k Hs. by apply Hk', Hk.
Qed.

Lemma same_record_setitem k v st :
  wf st → same_record st (setitem k v st).
Proof.
  intros Hwf. split_and!; try done.
  - by apply wf_setitem.
  - simpl. by rewrite length_alter.
  - intros a Ha. by apply at_addr_setitem_ne.
  - intros k' Hs. rewrite cur_setitem by done.
    apply lookup_insert_is_Some'. by right.
Qed.

Lemma same_record_append_message s st :
  wf st → same_record st (append_message s st).
Proof. intros Hwf. by split_and!. Qed.

Lemma same_record_append_file s st :
  wf st → same_record st (append_file s st).
Proof. intros Hwf. by split_and!. Qed.

(** A line that is neither compact nor a boundary touches the
    dictionary [output_line] names and the two buffers, nothing else. *)
Lemma step_same_record (st st' : state) (line : string) :
  wf st → ¬ opens_record (classify line) →
  process_line st line = Ok st' →
  same_record st st' ∧
  (classify line = MergeParents → is_Some (rest_of line)) ∧
  cur st' !! "merge" =
    (if decide (classify line = MergeParents)
     then VStr <$> rest_of line else cur st !! "merge") ∧
  cur st' !! "message" = cur st !! "message" ∧
  message_lines st' =
    (if decide (classify line = MessageLine)
     then message_lines st ++ [strip line] else message_lines st)%list.
Proof.
  intros Hwf Hrole. rewrite process_line_by_role. unfold rest_of, item.
  destruct (classify line) eqn:Hcl;
    try (exfalso; apply Hrole; unfold opens_record; by eauto);
    rewrite ?decide_True by done; rewrite ?decide_False by done.
  - (* Merge: *)
    destruct (split1 line !! 1) as [v|]; [|done].
    simpl. intros [= <-].
    split; [by apply same_record_setitem|]. split; [by eauto|].
    rewrite cur_setitem by done. by simplify_map_eq.
  - (* Author: *)
    destruct (split1 line !! 1) as [rest|]; [|done]. simpl.
    destruct (rsplit1 rest) as [|name [|email ?]]; try done.
    simpl. intros [= <-].
    split.
    { eapply same_record_trans; apply same_record_setitem; [done|].
      by apply wf_setitem. }
    split; [done|].
    rewrite !cur_setitem by (try apply wf_setitem; done).
    by simplify_map_eq.
  - (* Date: *)
    destruct (split1 line !! 1) as [v|]; [|done].
    simpl. intros [= <-].
    split; [by apply same_record_setitem|]. split; [done|].
    rewrite cur_setitem by done. by simplify_map_eq.
  - (* AuthorDate: *)
    destruct (split1 line !! 1) as [v|]; [|done].
    simpl. intros [= <-].
    split; [by apply same_record_setitem|]. split; [done|].
    rewrite cur_setitem by done. by simplify_map_eq.
  - (* CommitDate: *)
    destruct (split1 line !! 1) as [v|]; [|done].
    simpl. intros [= <-].
    split; [by apply same_record_setitem|]. split; [done|].
    rewrite cur_setitem by done. by simplify_map_eq.
  - (* Commit: *)
    destruct (split1 line !! 1) as [rest|]; [|done]. simpl.
    destruct (rsplit1 rest) as [|name [|email ?]]; try done.
    simpl. intros [= <-].
    split.
    { eapply same_record_trans; apply same_record_setitem; [done|].
      by apply wf_setitem. }
    split; [done|].
    rewrite !cur_setitem by (try apply wf_setitem; done).
    by simplify_map_eq.
  - (* a message line *)
    intros [= <-]. split; [by apply same_record_append_message|done].
  - (* a file line *)
    intros [= <-]. split; [by apply same_record_append_file|done].
  - (* the summary line *)
    destruct (re_match changes_pattern line) as [changes|]; [|done].
    intros [= <-].
    split; [by apply same_record_setitem|]. split; [done|].
    rewrite cur_setitem by done. by simplify_map_eq.
  - (* no role *)
    intros [= <-]. split; [by apply same_record_refl|done].
Qed.

Lemma wf_clear_buffers (st : state) : wf st → wf (clear_buffers st).
Proof. by intros [? ?]. Qed.

Lemma step_compact (st st' : state) (line : string) :
  classify line = CompactCommit → process_line st line = Ok st' →
  ∃ commit message,
    split1 line = commit :: message :: drop 2 (split1 line) ∧
    st' = append_output (bind_new (compact_record commit message) st).
Proof.
  intros Hcl. rewrite process_line_by_role, Hcl. unfold item.
  destruct (split1 line) as [|commit [|message ?]]; try done.
  simpl. intros [= <-]. by eauto.
Qed.

Lemma step_boundary (st st' : state) (line : string) :
  classify line = RecordBoundary → process_line st line = Ok st' →
  ∃ v, rest_of line = Some v ∧
    if truthy (cur st)
    then ∃ st2, seal st = Ok st2 ∧
           st' = setitem "commit" (VStr v) (clear_buffers (bind_new ∅ st2))
    else st' = setitem "commit" (VStr v) st.
Proof.
  intros Hcl. rewrite process_line_by_role, Hcl. unfold item, rest_of.
  destruct (truthy (cur st)).
  - destruct (seal st) as [st2|]; [|done]. simpl.
    destruct (split1 line !! 1) as [v|]; [|done]. simpl.
    intros [= <-]. eauto.
  - simpl. destruct (split1 line !! 1) as [v|]; [|done]. simpl.
    intros [= <-]. eauto.
Qed.

(** What a boundary line leaves behind when a record was open: the
    sealed record is the last element of [raw_output], and
    [output_line] names a new dictionary that has the [commit] key
    only. *)
Lemma step_boundary_open (st st' : state) (line : string) :
  wf st → truthy (cur st) = true →
  classify line = RecordBoundary → process_line st line = Ok st' →
  ∃ st2 v, seal st = Ok st2 ∧ rest_of line = Some v ∧
    wf st' ∧
    raw_output st' = (raw_output st ++ [output_line st])%list ∧
    output_line st' = length (heap st) ∧
    length (heap st') = S (length (heap st)) ∧
    (∀ a, a < length (heap st) →
          at_addr (heap st') a = at_addr (heap st2) a) ∧
    cur st' = {[ "commit" := VStr v ]} ∧
    message_lines st' = [] ∧ file_list st' = [].
Proof.
  intros Hwf Htr Hcl Hstep.
  destruct (step_boundary st st' line Hcl Hstep) as (v & Hv & Hst).
  rewrite Htr in Hst. destruct Hst as (st2 & Hseal & ->).
  destruct (seal_Ok st st2 Hwf Hseal) as (Hwf2 & Hr & Ho & Hl & Hf & _).
  exists st2, v. split_and!; [done | done | | done | | | | | done | done].
  - by apply wf_setitem, wf_clear_buffers, wf_bind_new.
  - simpl. by rewrite Hl.
  - simpl. rewrite length_alter, length_app. simpl. lia.
  - intros a Ha. simpl. rewrite at_addr_alter_ne by lia.
    apply at_addr_app_l. lia.
  - rewrite cur_setitem; [|by apply wf_clear_buffers, wf_bind_new].
    change (cur (clear_buffers ?s)) with (cur s).
    by rewrite cur_bind_new.
Qed.

(** ** The [commit] key *)

Lemma same_record_keeps_commit st st' a :
  same_record st st' →
  has_commit (at_addr (heap st) a) → has_commit (at_addr (heap st') a).
Proof.
  intros (_ & _ & Ho & _ & Hf & Hk) Hc.
  destruct (decide (a = output_line st)) as [->|Hne].
  - rewrite <- Ho. by apply Hk.
  - by rewrite Hf.
Qed.

Lemma step_commit (st st' : state) (line : string) :
  wf st → process_line st line = Ok st' →
  wf st' ∧
  (∀ a, a < length (heap st) →
        has_commit (at_addr (heap st) a) → has_commit (at_addr (heap st') a)) ∧
  ((raw_output st' = raw_output st ∧ output_line st' = output_line st)
   ∨ (raw_output st' = (raw_output st ++ [output_line st])%list
      ∧ has_commit (cur st'))
   ∨ (raw_output st' = (raw_output st ++ [output_line st'])%list
      ∧ has_commit (cur st'))) ∧
  (opens_record (classify line) → has_commit (cur st')).
Proof.
  intros Hwf Hstep.
  destruct (decide (classify line = CompactCommit)) as [Hcl|Hn1].
  { destruct (step_compact st st' line Hcl Hstep) as (c & m & _ & ->).
    assert (has_commit (cur (append_output (bind_new (compact_record c m) st))))
      as Hc.
    { change (cur (append_output ?s)) with (cur s). rewrite cur_bind_new.
      unfold has_commit, compact_record. by simplify_map_eq. }
    split_and!.
    - by apply wf_append_output, wf_bind_new.
    - intros a Ha. simpl. by rewrite at_addr_app_l.
    - right; right. by split.
    - done. }
  destruct (decide (classify line = RecordBoundary)) as [Hcl|Hn2].
  { destruct (truthy (cur st)) eqn:Htr.
    - destruct (step_boundary_open st st' line Hwf Htr Hcl Hstep)
        as (st2 & v & Hseal & _ & Hwf' & Hr & Ho & Hl & Hf & Hc & _).
      destruct (seal_Ok st st2 Hwf Hseal) as (_ & _ & Ho2 & _ & Hf2 & Hk2 & _).
      assert (has_commit (cur st')) as Hc'.
      { rewrite Hc. unfold has_commit. by simplify_map_eq. }
      split_and!; [done | | by right; left | done].
      intros a Ha Hhc. rewrite Hf by done.
      destruct (decide (a = output_line st)) as [->|Hne].
      + unfold has_commit. rewrite <- Ho2.
        change (at_addr (heap ?s) (output_line ?s)) with (cur s).
        by rewrite Hk2.
      + by rewrite Hf2.
    - destruct (step_boundary st st' line Hcl Hstep) as (v & _ & Hst).
      rewrite Htr in Hst. subst st'.
      assert (has_commit (cur (setitem "commit" (VStr v) st))) as Hc'.
      { rewrite cur_setitem by done. unfold has_commit.
        by simplify_map_eq. }
      split_and!; [by apply wf_setitem | | by left | done].
      intros a _. apply same_record_keeps_commit.
      by apply same_record_setitem. }
  destruct (step_same_record st st' line Hwf) as (Hsame & _); [|done|].
  { by intros [?|?]. }
  split_and!.
  - by destruct Hsame.
  - intros a _. by apply same_record_keeps_commit.
  - left. by destruct Hsame as (_ & ? & ? & _).
  - by intros [?|?].
Qed.

Lemma tail_snoc {A : Type} (l : list A) (x : A) :
  l ≠ [] → tail (l ++ [x]) = (tail l ++ [x])%list.
Proof. by destruct l. Qed.

Lemma Forall_commit_mono (st st' : state) (l : list addr) :
  Forall (λ a, a < length (heap st)) l →
  (∀ a, a < length (heap st) →
        has_commit (at_addr (heap st) a) → has_commit (at_addr (heap st') a)) →
  Forall (λ a, has_commit (at_addr (heap st) a)) l →
  Forall (λ a, has_commit (at_addr (heap st') a)) l.
Proof.
  intros Hlt Hmono Hall. induction Hall as [|a l Ha _ IH]; [constructor|].
  apply Forall_cons in Hlt as [Hlt1 Hlt2].
  constructor; [by apply Hmono | by apply IH].
Qed.

Lemma commits_after_first_step st st' line :
  commits_after_first st → process_line st line = Ok st' →
  commits_after_first st'.
Proof.
  intros (Hwf & Htl & Hcur) Hstep.
  destruct (step_commit st st' line Hwf Hstep) as (Hwf' & Hmono & Hraw & _).
  assert (Forall (λ a, has_commit (at_addr (heap st') a))
                 (tail (raw_output st))) as Htl'.
  { apply (Forall_commit_mono st); [|done|done].
    destruct Hwf as [_ Hall]. destruct (raw_output st); [constructor|].
    by apply Forall_cons in Hall as [_ ?]. }
  split; [done|].
  destruct Hraw as [[Hr Ho]|[[Hr Hc]|[Hr Hc]]]; rewrite Hr.
  - split; [done|]. intros Hne. unfold cur. rewrite Ho.
    apply Hmono; [by destruct Hwf | by apply Hcur].
  - split; [|done].
    destruct (raw_output st) as [|a0 l] eqn:Hl; [constructor|].
    rewrite tail_snoc by done. apply Forall_app. split; [done|].
    constructor; [|constructor].
    apply Hmono; [by destruct Hwf | by apply Hcur].
  - split; [|done].
    destruct (raw_output st) as [|a0 l] eqn:Hl; [constructor|].
    rewrite tail_snoc by done. apply Forall_app. split; [done|].
    by constructor.
Qed.

Lemma commits_everywhere_step st st' line :
  commits_everywhere st → process_line st line = Ok st' →
  commits_everywhere st'.
Proof.
  intros (Hwf & Hall & Hcur) Hstep.
  destruct (step_commit st st' line Hwf Hstep) as (Hwf' & Hmono & Hraw & _).
  assert (Forall (λ a, has_commit (at_addr (heap st') a)) (raw_output st))
    as Hall'.
  { apply (Forall_commit_mono st); [by destruct Hwf|done|done]. }
  assert (has_commit (at_addr (heap st') (output_line st))) as Hold.
  { apply Hmono; [by destruct Hwf | done]. }
  split; [done|].
  destruct Hraw as [[Hr Ho]|[[Hr Hc]|[Hr Hc]]]; rewrite Hr.
  - split; [done|]. unfold cur. by rewrite Ho.
  - split; [|done]. apply Forall_app. split; [done|].
    by constructor.
  - split; [|done]. apply Forall_app. split; [done|].
    by constructor.
Qed.

Lemma commits_after_first_run lines : ∀ st st',
  commits_after_first st → run_lines lines st = Ok st' →
  commits_after_first st'.
Proof.
  induction lines as [|line rest IH]; intros st st' Hinv; simpl.
  - by intros [= <-].
  - intros Hrun. apply bind_Ok_inv in Hrun as (st1 & Hstep & Hrun).
    eapply IH; [|exact Hrun]. by eapply commits_after_first_step.
Qed.

Lemma commits_everywhere_run lines : ∀ st st',
  commits_everywhere st → run_lines lines st = Ok st' →
  commits_everywhere st'.
Proof.
  induction lines as [|line rest IH]; intros st st' Hinv; simpl.
  - by intros [= <-].
  - intros Hrun. apply bind_Ok_inv in Hrun as (st1 & Hstep & Hrun).
    eapply IH; [|exact Hrun]. by eapply commits_everywhere_step.
Qed.

Lemma seal_keeps_commit (st st2 : state) (a : addr) :
  wf st → seal st = Ok st2 →
  has_commit (at_addr (heap st) a) → has_commit (at_addr (heap st2) a).
Proof.
  intros Hwf Hseal Hc.
  destruct (seal_Ok st st2 Hwf Hseal) as (_ & _ & Ho2 & _ & Hf2 & Hk2 & _).
  destruct (decide (a = output_line st)) as [->|Hne].
  - unfold has_commit. rewrite <- Ho2.
    change (at_addr (heap ?s) (output_line ?s)) with (cur s).
    by rewrite Hk2.
  - by rewrite Hf2.
Qed.

Lemma orphan_free_run lines : ∀ st st',
  wf st → cur st = ∅ → raw_output st = [] →
  orphan_free lines = true → run_lines lines st = Ok st' →
  (cur st' = ∅ ∧ raw_output st' = []) ∨ commits_everywhere st'.
Proof.
  induction lines as [|line rest IH]; intros st st' Hwf Hcur Hraw; simpl.
  - intros _ [= <-]. by left.
  - intros Hfree Hrun. apply bind_Ok_inv in Hrun as (st1 & Hstep & Hrun).
    destruct (keeps_record line) eqn:Hkeep.
    + destruct (keeps_record_step st line Hkeep)
        as (st1' & Hstep' & Hh & Hr & Ho).
      assert (st1' = st1) as -> by congruence.
      eapply IH; [| | |exact Hfree|exact Hrun].
      * destruct Hwf as [? ?]. split; by rewrite ?Hh, ?Hr, ?Ho.
      * unfold cur. by rewrite Hh, Ho.
      * congruence.
    + right. eapply commits_everywhere_run; [|exact Hrun].
      destruct (classify line) eqn:Hcl; try done.
      * destruct (step_compact st st1 line Hcl Hstep) as (c & m & _ & ->).
        assert (has_commit (compact_record c m)) as Hc.
        { unfold has_commit, compact_record. by simplify_map_eq. }
        split; [by apply wf_append_output, wf_bind_new|].
        change (cur (append_output ?s)) with (cur s).
        rewrite cur_bind_new. split; [|done].
        simpl. rewrite Hraw. simpl. constructor; [|constructor].
        by rewrite at_addr_app_new.
      * destruct (step_boundary st st1 line Hcl Hstep) as (v & _ & Hst).
        rewrite Hcur, truthy_empty in Hst. subst st1.
        split; [by apply wf_setitem|]. split.
        -- simpl. rewrite Hraw. constructor.
        -- rewrite cur_setitem by done. unfold has_commit.
           by simplify_map_eq.
Qed.

Lemma contents_lookup (st : state) (i : nat) (d : dict) :
  contents st !! i = Some d ↔
  ∃ a, raw_output st !! i = Some a ∧ d = at_addr (heap st) a.
Proof.
  unfold contents. rewrite list_lookup_fmap.
  destruct (raw_output st !! i) as [a|]; simpl; split.
  - intros [= <-]. eauto.
  - by intros (a' & [= <-] & ->).
  - done.
  - by intros (a' & ? & _).
Qed.

Lemma finish_Ok (st st' : state) :
  wf st →
  (if truthy (cur st) then seal st else Ok st) = Ok st' →
  wf st' ∧
  (∀ a, has_commit (at_addr (heap st) a) → has_commit (at_addr (heap st') a)) ∧
  raw_output st' =
    (if truthy (cur st) then raw_output st ++ [output_line st]
     else raw_output st)%list.
Proof.
  intros Hwf. destruct (truthy (cur st)).
  - intros Hseal. split_and!.
    + by destruct (seal_Ok st st' Hwf Hseal).
    + intros a. by apply seal_keeps_commit.
    + by destruct (seal_Ok st st' Hwf Hseal) as (_ & ? & _).
  - by intros [= <-].
Qed.

(** C2, as the code has it: every record of the output but the first
    has its [commit] key; the first has it too when no header or
    summary line comes before the first commit line of the input. *)
Theorem commit_set_after_first
  (data : string) (raw quiet : bool) (out : list dict) :
  parse data raw quiet = Ok out →
  (∀ i d, out !! S i = Some d → has_commit d) ∧
  (orphan_free (splitlines data) = true → ∀ d, d ∈ out → has_commit d).
Proof.
  rewrite parse_unguarded. unfold parse_lines. intros Hparse.
  apply bind_Ok_inv in Hparse as (st & Hrun & Hparse).
  apply bind_Ok_inv in Hparse as (st' & Hfin & [= <-]).
  destruct (finish_Ok st st') as (Hwf' & Hmono & Hraw); [|done|].
  { eapply commits_after_first_run; [|exact Hrun].
    split; [apply wf_init|]. split; [constructor|done]. }
  split.
  - assert (commits_after_first st) as (Hwf & Htl & Hcur).
    { eapply commits_after_first_run; [|exact Hrun].
      split; [apply wf_init|]. split; [constructor|done]. }
    intros i d Hd. apply contents_lookup in Hd as (a & Ha & ->).
    rewrite Hraw in Ha. destruct (truthy (cur st)).
    + apply lookup_snoc_Some in Ha as [[Hlt Ha]|[Hlen <-]].
      * apply Hmono. rewrite Forall_lookup in Htl.
        apply (Htl i). by rewrite lookup_tail.
      * apply Hmono, Hcur. destruct (raw_output st); [done|done].
    + apply Hmono. rewrite Forall_lookup in Htl.
      apply (Htl i). by rewrite lookup_tail.
  - intros Hfree d Hd. apply list_elem_of_lookup in Hd as [i Hd].
    apply contents_lookup in Hd as (a & Ha & ->).
    destruct (orphan_free_run _ init st wf_init eq_refl eq_refl Hfree Hrun)
      as [[Hcur Hnil]|(Hwf & Hall & Hcur)].
    + rewrite Hcur, truthy_empty in Hraw. rewrite Hraw, Hnil in Ha. done.
    + rewrite Hraw in Ha. rewrite Forall_lookup in Hall.
      destruct (truthy (cur st)).
      * apply lookup_snoc_Some in Ha as [[Hlt Ha]|[Hlen <-]].
        -- apply Hmono. by apply (Hall i).
        -- by apply Hmono.
      * apply Hmono. by apply (Hall i).
Qed.

Lemma commit_set_after_first_witness :
  parse two_commits false false =
    Ok [ {[ "commit" := VStr "1a2b" ]}; {[ "commit" := VStr "3c4d" ]} ] ∧
  (∀ i d, [ ({[ "commit" := VStr "1a2b" ]} : dict);
            {[ "commit" := VStr "3c4d" ]} ] !! S i = Some d →
          has_commit d) ∧
  (∀ d, d ∈ [ ({[ "commit" := VStr "1a2b" ]} : dict);
              {[ "commit" := VStr "3c4d" ]} ] → has_commit d).
Proof.
  assert (parse two_commits false false =
            Ok [ {[ "commit" := VStr "1a2b" ]}; {[ "commit" := VStr "3c4d" ]} ])
    as Hparse by (vm_compute; reflexivity).
  split; [exact Hparse|].
  destruct (commit_set_after_first _ _ _ _ Hparse) as [Hrest Hall].
  split; [exact Hrest|]. apply Hall. vm_compute; reflexivity.
Defined.

(** C2 fails as stated: a merge line with no commit line before it
    fills the empty [output_line], which the end of [parse] appends. *)
Lemma orphan_header_emitted_without_commit :
  parse "Merge: 1a2b 3c4d" false false =
    Ok [ {[ "merge" := VStr "1a2b 3c4d" ]} ] ∧
  ¬ has_commit ({[ "merge" := VStr "1a2b 3c4d" ]} : dict).
Proof.
  split; [vm_compute; reflexivity|].
  unfold has_commit. rewrite lookup_singleton_ne by done.
  by intros [? ?].
Qed.


(** ** The records of a multi-line listing *)

Lemma has_commit_truthy (d : dict) : has_commit d → truthy d = true.
Proof.
  intros [v Hv]. unfold truthy. rewrite bool_decide_eq_false_2; [done|].
  intros ->. by rewrite lookup_empty in Hv.
Qed.

Lemma lines_of_role_snoc (r : role) (seg : list string) (line : string) :
  lines_of_role r (seg ++ [line]) =
  (lines_of_role r seg ++ if decide (classify line = r) then [line] else [])%list.
Proof.
  unfold lines_of_role. rewrite filter_app. f_equal.
Qed.

Lemma merge_spec_snoc (d : dict) (seg : list string) (line : string) :
  (if decide (classify line = MergeParents)
   then ∃ v, rest_of line = Some v ∧ d !! "merge" = Some (VStr v)
   else merge_spec d seg) →
  merge_spec d (seg ++ [line]).
Proof.
  unfold merge_spec. rewrite lines_of_role_snoc.
  destruct (decide _); [by rewrite last_snoc | by rewrite app_nil_r].
Qed.

Lemma merge_spec_ext (d d' : dict) (seg : list string) :
  d' !! "merge" = d !! "merge" → merge_spec d seg → merge_spec d' seg.
Proof. unfold merge_spec. by intros ->. Qed.

Lemma reading_step (st st' : state) (seg : list string) (line : string) :
  reading st seg → ¬ opens_record (classify line) →
  process_line st line = Ok st' →
  reading st' (seg ++ [line]) ∧ contents st' = contents st.
Proof.
  intros (Hwf & Hna & Hc & Hmerge & Hmsg & Hbuf) Hrole Hstep.
  destruct (step_same_record st st' line Hwf Hrole Hstep)
    as ((Hwf' & Hr & Ho & Hl & Hf & Hk) & Hrest & Hmerge' & Hmsg' & Hbuf').
  split.
  - split_and!.
    + done.
    + by rewrite Hr, Ho.
    + by apply Hk.
    + apply merge_spec_snoc.
      destruct (decide (classify line = MergeParents)) as [Hcl|Hcl].
      * destruct (Hrest Hcl) as [v Hv]. exists v. by rewrite Hmerge', Hv.
      * by apply (merge_spec_ext (cur st)).
    + congruence.
    + rewrite Hbuf', lines_of_role_snoc, fmap_app, Hbuf.
      destruct (decide (classify line = MessageLine)); simpl;
        [done | by rewrite app_nil_r].
  - unfold contents. rewrite Hr. apply Forall_fmap_ext_1.
    eapply Forall_impl; [exact Hna|]. intros a Ha. by apply Hf.
Qed.

Lemma reading_seal (st st2 : state) (seg : list string) :
  reading st seg → seal st = Ok st2 →
  contents st2 = (contents st ++ [cur st2])%list ∧
  record_fields (cur st2) seg ∧
  (∀ a, a ≠ output_line st → at_addr (heap st2) a = at_addr (heap st) a).
Proof.
  intros (Hwf & Hna & Hc & Hmerge & Hmsg & Hbuf) Hseal.
  destruct (seal_Ok st st2 Hwf Hseal) as (_ & Hr & Ho & _ & Hf & Hk & Hm).
  split_and!; [| |done].
  - unfold contents. rewrite Hr, fmap_app. simpl. f_equal.
    + apply Forall_fmap_ext_1.
      eapply Forall_impl; [exact Hna|]. intros a Ha. by apply Hf.
    + unfold cur. by rewrite Ho.
  - split.
    + apply (merge_spec_ext (cur st)); [by apply Hk | done].
    + rewrite Hm, Hmsg, Hbuf. unfold message_of.
      by destruct (strip <$> lines_of_role MessageLine seg).
Qed.

Lemma reading_boundary (st st' : state) (seg : list string) (line : string) :
  reading st seg → classify line = RecordBoundary →
  process_line st line = Ok st' →
  ∃ d, reading st' [] ∧ contents st' = (contents st ++ [d])%list ∧
       record_fields d seg.
Proof.
  intros Hread Hcl Hstep.
  pose proof Hread as (Hwf & Hna & Hc & _).
  destruct (step_boundary_open st st' line Hwf (has_commit_truthy _ Hc)
              Hcl Hstep)
    as (st2 & v & Hseal & _ & Hwf' & Hr & Ho & Hl & Hf & Hcur & Hm & _).
  destruct (reading_seal st st2 seg Hread Hseal) as (Hcont & Hfields & _).
  destruct (seal_Ok st st2 Hwf Hseal) as (Hwf2 & Hr2 & Ho2 & Hl2 & _).
  exists (cur st2). split_and!; [| |done].
  - split_and!.
    + done.
    + rewrite Hr, Ho. destruct Hwf as [Hlt Hall].
      apply Forall_app. split.
      * eapply Forall_impl; [exact Hall|]. simpl. intros a Ha. lia.
      * constructor; [lia|constructor].
    + rewrite Hcur. unfold has_commit. by simplify_map_eq.
    + rewrite Hcur. unfold merge_spec. by simplify_map_eq.
    + rewrite Hcur. by simplify_map_eq.
    + by rewrite Hm.
  - rewrite <- Hcont. unfold contents. rewrite Hr, Hr2.
    apply Forall_fmap_ext_1. destruct Hwf as [Hlt Hall].
    apply Forall_app. split.
    + eapply Forall_impl; [exact Hall|]. simpl. intros a Ha. by apply Hf.
    + constructor; [by apply Hf|constructor].
Qed.

Lemma run_records (rest : list string) : ∀ st seg st1 st2,
  reading st seg →
  Forall (λ line, classify line ≠ CompactCommit) rest →
  run_lines rest st = Ok st1 → seal st1 = Ok st2 →
  ∃ recs, contents st2 = (contents st ++ recs)%list ∧
          Forall2 record_fields recs (segments_from seg rest).
Proof.
  induction rest as [|line rest IH]; intros st seg st1 st2 Hread Hnc; simpl.
  - intros [= <-] Hseal.
    destruct (reading_seal st st2 seg Hread Hseal) as (Hcont & Hfields & _).
    exists [cur st2]. split; [done|]. constructor; [done | constructor].
  - intros Hrun Hseal. apply bind_Ok_inv in Hrun as (st' & Hstep & Hrun).
    apply Forall_cons in Hnc as [Hline Hnc].
    destruct (decide (classify line = RecordBoundary)) as [Hcl|Hcl].
    + destruct (reading_boundary st st' seg line Hread Hcl Hstep)
        as (d & Hread' & Hcont & Hfields).
      destruct (IH st' [] st1 st2 Hread' Hnc Hrun Hseal) as (recs & Hc2 & Hall).
      exists (d :: recs). split.
      * by rewrite Hc2, Hcont, <- app_assoc.
      * by constructor.
    + destruct (reading_step st st' seg line Hread) as [Hread' Hcont];
        [by intros [?|?] | done |].
      destruct (IH st' (seg ++ [line])%list st1 st2 Hread' Hnc Hrun Hseal)
        as (recs & Hc2 & Hall).
      exists recs. split; [by rewrite Hc2, Hcont | done].
Qed.

Lemma reading_run (rest : list string) : ∀ st seg st1,
  reading st seg →
  Forall (λ line, classify line ≠ CompactCommit) rest →
  run_lines rest st = Ok st1 → has_commit (cur st1).
Proof.
  induction rest as [|line rest IH]; intros st seg st1 Hread Hnc; simpl.
  - intros [= <-]. by destruct Hread as (_ & _ & ? & _).
  - intros Hrun. apply bind_Ok_inv in Hrun as (st' & Hstep & Hrun).
    apply Forall_cons in Hnc as [Hline Hnc].
    destruct (decide (classify line = RecordBoundary)) as [Hcl|Hcl].
    + destruct (reading_boundary st st' seg line Hread Hcl Hstep)
        as (d & Hread' & _).
      by eapply IH.
    + destruct (reading_step st st' seg line Hread) as [Hread' _];
        [by intros [?|?] | done |].
      by eapply IH.
Qed.

(** The records of a listing that starts with a boundary line and has
    no compact line: one for each run of lines between boundary lines,
    in order, with the fields these lines decide. *)
Lemma parse_records (b : string) (rest : list string) (out : list dict) :
  classify b = RecordBoundary →
  Forall (λ line, classify line ≠ CompactCommit) rest →
  parse_lines (b :: rest) = Ok out →
  Forall2 record_fields out (segments rest).
Proof.
  intros Hb Hnc. unfold parse_lines. simpl. intros Hparse.
  apply bind_Ok_inv in Hparse as (st1 & Hrun & Hparse).
  apply bind_Ok_inv in Hrun as (st0 & Hstep & Hrun).
  apply bind_Ok_inv in Hparse as (st2 & Hfin & [= <-]).
  destruct (step_boundary init st0 b Hb Hstep) as (v & _ & Hst0).
  change (truthy (cur init)) with false in Hst0. cbv iota in Hst0.
  subst st0.
  assert (reading (setitem "commit" (VStr v) init) []) as Hread.
  { split_and!; [by apply wf_setitem, wf_init | constructor | | | |];
      rewrite ?cur_setitem by apply wf_init;
      unfold has_commit, merge_spec; by simplify_map_eq. }
  rewrite (has_commit_truthy _ (reading_run _ _ _ _ Hread Hnc Hrun)) in Hfin.
  destruct (run_records rest _ [] st1 st2 Hread Hnc Hrun Hfin)
    as (recs & Hcont & Hall).
  by rewrite Hcont.
Qed.

Example segments_merge_listing :
  segments merge_listing_rest =
  [ [ "Merge: 3c4d 5e6f";
      "Author: A U Thor <author@example.org>";
      "Date:   Mon Jan 1 00:00:00 2024 +0000";
      EmptyString;
      "    Merge branch";
      "      with a list  ";
      EmptyString ];
    [ "Author: A U Thor <author@example.org>";
      "Date:   Sun Dec 31 00:00:00 2023 +0000";
      EmptyString;
      "    fix bug" ] ].
Proof. vm_compute. reflexivity. Qed.

(** C6, as the code has it: in a listing that starts with a commit line
    and has no compact line, the message of every record is the
    newline-join, in input order, of its message lines, each with all
    its leading and trailing white space removed ([line.strip()]); a
    record with no message line has no message key. *)
Theorem message_joins_stripped_lines
  (data : string) (raw quiet : bool) (b : string) (rest : list string)
  (out : list dict) :
  splitlines data = b :: rest →
  classify b = RecordBoundary →
  Forall (λ line, classify line ≠ CompactCommit) rest →
  parse data raw quiet = Ok out →
  Forall2 (λ d seg,
             d !! "message" =
             let contents := strip <$> lines_of_role MessageLine seg in
             if nonempty contents
             then Some (VStr (join newline contents)) else None)
          out (segments rest).
Proof.
  intros Hlines Hb Hnc. rewrite parse_unguarded, Hlines. intros Hparse.
  eapply Forall2_impl; [by eapply parse_records|].
  by intros d seg [_ Hmsg].
Qed.

Lemma message_joins_stripped_lines_witness :
  splitlines merge_listing = "commit 1a2b" :: merge_listing_rest ∧
  classify "commit 1a2b" = RecordBoundary ∧
  Forall (λ line, classify line ≠ CompactCommit) merge_listing_rest ∧
  parse merge_listing false false = Ok merge_listing_out ∧
  Forall2 (λ d seg,
             d !! "message" =
             let contents := strip <$> lines_of_role MessageLine seg in
             if nonempty contents
             then Some (VStr (join newline contents)) else None)
          merge_listing_out (segments merge_listing_rest).
Proof.
  assert (splitlines merge_listing = "commit 1a2b" :: merge_listing_rest)
    as Hlines by (vm_compute; reflexivity).
  assert (classify "commit 1a2b" = RecordBoundary)
    as Hb by (vm_compute; reflexivity).
  assert (Forall (λ line, classify line ≠ CompactCommit) merge_listing_rest)
    as Hnc.
  { unfold merge_listing_rest.
    repeat (constructor; [vm_compute; discriminate|]). constructor. }
  assert (parse merge_listing false false = Ok merge_listing_out)
    as Hparse by (vm_compute; reflexivity).
  split_and!; [exact Hlines | exact Hb | exact Hnc | exact Hparse |].
  exact (message_joins_stripped_lines _ _ _ _ _ _ Hlines Hb Hnc Hparse).
Defined.

(** C6 fails as stated: the white space after the four characters of
    indentation, and the white space at the end of the line, are not in
    the message. *)
Lemma message_line_loses_all_white_space :
  parse (text ["commit 1a2b"; "      with a list  "]) false false =
    Ok [ {[ "commit" := VStr "1a2b"; "message" := VStr "with a list" ]} ] ∧
  spec_message_of ["      with a list  "] = Some (VStr "  with a list  ") ∧
  ({[ "commit" := VStr "1a2b"; "message" := VStr "with a list" ]} : dict)
    !! "message" ≠ spec_message_of ["      with a list  "].
Proof. split_and!; by vm_compute. Qed.

(** C10, as the code has it: in a listing that starts with a commit
    line and has no compact line, a record has the key [merge] (there
    is no [merge_parents] key) exactly when one of its lines is a merge
    line, and the key then holds what follows the first token of the
    last such line. *)
Theorem merge_key_iff_merge_line
  (data : string) (raw quiet : bool) (b : string) (rest : list string)
  (out : list dict) :
  splitlines data = b :: rest →
  classify b = RecordBoundary →
  Forall (λ line, classify line ≠ CompactCommit) rest →
  parse data raw quiet = Ok out →
  Forall2 (λ d seg,
             match last (lines_of_role MergeParents seg) with
             | Some line =>
                 ∃ v, split1 line !! 1 = Some v ∧ d !! "merge" = Some (VStr v)
             | None => d !! "merge" = None
             end)
          out (segments rest).
Proof.
  intros Hlines Hb Hnc. rewrite parse_unguarded, Hlines. intros Hparse.
  eapply Forall2_impl; [by eapply parse_records|].
  by intros d seg [Hmerge _].
Qed.

Lemma merge_key_iff_merge_line_witness :
  splitlines merge_listing = "commit 1a2b" :: merge_listing_rest ∧
  classify "commit 1a2b" = RecordBoundary ∧
  Forall (λ line, classify line ≠ CompactCommit) merge_listing_rest ∧
  parse merge_listing false false = Ok merge_listing_out ∧
  Forall2 (λ d seg,
             match last (lines_of_role MergeParents seg) with
             | Some line =>
                 ∃ v, split1 line !! 1 = Some v ∧ d !! "merge" = Some (VStr v)
             | None => d !! "merge" = None
             end)
          merge_listing_out (segments merge_listing_rest).
Proof.
  assert (splitlines merge_listing = "commit 1a2b" :: merge_listing_rest)
    as Hlines by (vm_compute; reflexivity).
  assert (classify "commit 1a2b" = RecordBoundary)
    as Hb by (vm_compute; reflexivity).
  assert (Forall (λ line, classify line ≠ CompactCommit) merge_listing_rest)
    as Hnc.
  { unfold merge_listing_rest.
    repeat (constructor; [vm_compute; discriminate|]). constructor. }
  assert (parse merge_listing false false = Ok merge_listing_out)
    as Hparse by (vm_compute; reflexivity).
  split_and!; [exact Hlines | exact Hb | exact Hnc | exact Hparse |].
  exact (merge_key_iff_merge_line _ _ _ _ _ _ Hlines Hb Hnc Hparse).
Defined.

(** C10 fails as stated: the parents of a merge commit are under the
    key [merge]; no record ever has a [merge_parents] key. *)
Lemma merge_line_sets_merge_key :
  parse (text ["commit 1a2b"; "Merge: 3c4d 5e6f"]) false false =
    Ok [ {[ "commit" := VStr "1a2b"; "merge" := VStr "3c4d 5e6f" ]} ] ∧
  ({[ "commit" := VStr "1a2b"; "merge" := VStr "3c4d 5e6f" ]} : dict)
    !! "merge_parents" = None.
Proof. split; by vm_compute. Qed.


(** ** Records the boundary branch has sealed *)

Lemma contents_same (st st' : state) :
  unshared st → raw_output st' = raw_output st →
  (∀ a, a ≠ output_line st → at_addr (heap st') a = at_addr (heap st) a) →
  contents st' = contents st.
Proof.
  intros [_ Hna] Hr Hf. unfold contents. rewrite Hr.
  apply Forall_fmap_ext_1.
  eapply Forall_impl; [exact Hna|]. intros a Ha. by apply Hf.
Qed.

Lemma unshared_seal (st st2 : state) :
  unshared st → seal st = Ok st2 →
  contents st2 = (contents st ++ [cur st2])%list.
Proof.
  intros [Hwf Hna] Hseal.
  destruct (seal_Ok st st2 Hwf Hseal) as (_ & Hr & Ho & _ & Hf & _).
  unfold contents. rewrite Hr, fmap_app. simpl. f_equal.
  - apply Forall_fmap_ext_1.
    eapply Forall_impl; [exact Hna|]. intros a Ha. by apply Hf.
  - unfold cur. by rewrite Ho.
Qed.

(** Without compact lines [output_line] is never an element of
    [raw_output], and a line leaves the elements of [raw_output] as
    they are: it can only append one. *)
Lemma unshared_step (st st' : state) (line : string) :
  unshared st → classify line ≠ CompactCommit →
  process_line st line = Ok st' →
  unshared st' ∧ ∃ new, contents st' = (contents st ++ new)%list.
Proof.
  intros Hun Hnc Hstep. pose proof Hun as [Hwf Hna].
  destruct (decide (classify line = RecordBoundary)) as [Hcl|Hcl].
  - destruct (truthy (cur st)) eqn:Htr.
    + destruct (step_boundary_open st st' line Hwf Htr Hcl Hstep)
        as (st2 & v & Hseal & _ & Hwf' & Hr & Ho & Hl & Hf & _).
      destruct (seal_Ok st st2 Hwf Hseal) as (_ & Hr2 & _).
      split.
      * split; [done|]. rewrite Hr, Ho. destruct Hwf as [Hlt Hall].
        apply Forall_app. split.
        -- eapply Forall_impl; [exact Hall|]. simpl. intros a Ha. lia.
        -- constructor; [lia|constructor].
      * exists [cur st2]. rewrite <- (unshared_seal st st2 Hun Hseal).
        unfold contents. rewrite Hr, Hr2.
        apply Forall_fmap_ext_1. destruct Hwf as [Hlt Hall].
        apply Forall_app. split.
        -- eapply Forall_impl; [exact Hall|]. simpl. intros a Ha.
           by apply Hf.
        -- constructor; [by apply Hf|constructor].
    + destruct (step_boundary st st' line Hcl Hstep) as (v & _ & Hst).
      rewrite Htr in Hst. subst st'.
      destruct (same_record_setitem "commit" (VStr v) st Hwf)
        as (Hwf' & Hr & Ho & _ & Hf & _).
      split; [split; [done | by rewrite Hr, Ho]|].
      exists []. rewrite app_nil_r. by apply contents_same.
  - destruct (step_same_record st st' line Hwf)
      as ((Hwf' & Hr & Ho & _ & Hf & _) & _); [by intros [?|?] | done |].
    split; [split; [done | by rewrite Hr, Ho]|].
    exists []. rewrite app_nil_r. by apply contents_same.
Qed.

(** In a listing with no compact line, the records that are in
    [raw_output] at some point are the first records of the output, as
    they were. *)
Lemma sealed_records_unchanged (lines : list string) : ∀ st st',
  unshared st →
  Forall (λ line, classify line ≠ CompactCommit) lines →
  run_lines lines st = Ok st' →
  unshared st' ∧ ∃ new, contents st' = (contents st ++ new)%list.
Proof.
  induction lines as [|line rest IH]; intros st st' Hun Hnc; simpl.
  - intros [= <-]. split; [done|]. exists []. by rewrite app_nil_r.
  - intros Hrun. apply bind_Ok_inv in Hrun as (st1 & Hstep & Hrun).
    apply Forall_cons in Hnc as [Hline Hnc].
    destruct (unshared_step st st1 line Hun Hline Hstep)
      as (Hun1 & new1 & Hc1).
    destruct (IH st1 st' Hun1 Hnc Hrun) as (Hun' & new & Hc).
    split; [done|]. exists (new1 ++ new)%list.
    by rewrite Hc, Hc1, <- app_assoc.
Qed.

(** ** The compact test *)

Lemma hex_group_first_char (s : string) (g : groups) (k : cont) :
  (∀ s' g', is_Some (k s' g')) →
  is_Some (run (Group None (Alt (Class (in_range "0" "9"))
                                (Class (in_range "a" "f")))) s g k) ↔
  ∃ c rest, s = String c rest ∧ is_hex c = true.
Proof.
  intros Hk. unfold is_hex. cbn [run]. destruct s as [|c rest].
  - split; [by intros [? ?] | by intros (? & ? & ? & _)].
  - destruct (Hk rest (bind_group None (consumed (String c rest) rest) g))
      as [m ->].
    destruct (in_range "0" "9" c) eqn:Hd; simpl.
    + split; [intros _; exists c, rest; by rewrite Hd | by eauto].
    + destruct (in_range "a" "f" c) eqn:Hl; simpl.
      * split; [intros _; exists c, rest; by rewrite Hd, Hl | by eauto].
      * split; [by intros [? ?]|]. intros (c' & rest' & [= <- <-] & Hc).
        by rewrite Hd, Hl in Hc.
Qed.

Lemma run_Plus (r : regex) (s : string) (g : groups) (k : cont) :
  run (Plus r) s g k =
  run r s g (fun s' g' =>
    match (if (String.length s' <? String.length s)%nat
           then repeat_from (run r) (String.length s) s' g' k else None) with
    | Some m => Some m
    | None => k s' g'
    end).
Proof. reflexivity. Qed.

Lemma hash_pattern_first_char (tok : string) :
  is_Some (re_match hash_pattern tok) ↔
  ∃ c rest, tok = String c rest ∧ is_hex c = true.
Proof.
  unfold re_match, hash_pattern. rewrite run_Plus.
  apply hex_group_first_char. intros s' g'.
  destruct (if (String.length s' <? String.length tok)%nat then _ else _);
    by eauto.
Qed.

Lemma is_commit_hash_first_char (tok : string) :
  _is_commit_hash tok = true ↔
  String.length tok = 40 ∧ ∃ c rest, tok = String c rest ∧ is_hex c = true.
Proof.
  rewrite <- hash_pattern_first_char. unfold _is_commit_hash.
  destruct (Nat.eqb_spec (String.length tok) 40) as [Hlen|Hlen]; simpl.
  - destruct (re_match hash_pattern tok) as [m|].
    + split; [by eauto | done].
    + split; [done | by intros [_ [? ?]]].
  - split; [done | by intros [? _]].
Qed.

(** C9, on the code: [_is_commit_hash] tests the length of the token and
    its first character only, because [re.match] anchors the pattern at
    the start and not at the end.  A token of forty characters of which
    only the first is a hexadecimal digit passes the test, is read as a
    compact commit, and becomes a record. *)
Theorem compact_test_reads_first_character :
  (∀ tok, _is_commit_hash tok = true ↔
          String.length tok = 40 ∧
          ∃ c rest, tok = String c rest ∧ is_hex c = true) ∧
  spec_is_commit_hash not_a_hash = false ∧
  _is_commit_hash not_a_hash = true ∧
  classify (not_a_hash ++ " fix bug") = CompactCommit ∧
  parse (not_a_hash ++ " fix bug") false false =
    Ok [ compact_record not_a_hash "fix bug";
         compact_record not_a_hash "fix bug" ].
Proof.
  split; [exact is_commit_hash_first_char|].
  split_and!; by vm_compute.
Qed.

(** ** The compact branch *)

Lemma compact_classified (line commit message : string) :
  split1 line = [commit; message] → _is_commit_hash commit = true →
  classify line = CompactCommit.
Proof. intros Hs Hh. unfold classify, is_compact. by rewrite Hs, Hh. Qed.

(** C3, on the code: a text of one compact line gives two records, the
    same dictionary twice: the compact branch appends [output_line] and
    leaves it bound, and the end of [parse] appends it again. *)
Theorem compact_line_emitted_twice
  (data : string) (raw quiet : bool) (line commit message : string) :
  splitlines data = [line] →
  split1 line = [commit; message] →
  _is_commit_hash commit = true →
  parse data raw quiet =
    Ok [compact_record commit message; compact_record commit message].
Proof.
  intros Hlines Hsplit Hhash. rewrite parse_unguarded, Hlines.
  unfold parse_lines. cbn [run_lines].
  rewrite process_line_by_role, (compact_classified _ _ _ Hsplit Hhash).
  unfold item. rewrite Hsplit. cbn [lookup list_lookup]. rewrite !bind_Ok.
  change (cur (append_output ?s)) with (cur s). rewrite cur_bind_new.
  unfold compact_record at 1. rewrite truthy_insert.
  reflexivity.
Qed.

Lemma compact_line_emitted_twice_witness :
  splitlines (hash40 ++ " fix bug") = [hash40 ++ " fix bug"] ∧
  split1 (hash40 ++ " fix bug") = [hash40; "fix bug"] ∧
  _is_commit_hash hash40 = true ∧
  parse (hash40 ++ " fix bug") false false =
    Ok [compact_record hash40 "fix bug"; compact_record hash40 "fix bug"].
Proof.
  assert (splitlines (hash40 ++ " fix bug") = [hash40 ++ " fix bug"])
    as Hlines by (vm_compute; reflexivity).
  assert (split1 (hash40 ++ " fix bug") = [hash40; "fix bug"])
    as Hsplit by (vm_compute; reflexivity).
  assert (_is_commit_hash hash40 = true)
    as Hhash by (vm_compute; reflexivity).
  split_and!; [exact Hlines | exact Hsplit | exact Hhash |].
  exact (compact_line_emitted_twice _ false false _ _ _ Hlines Hsplit Hhash).
Defined.

(** C4, on the code: after a compact line [output_line] still names the
    dictionary that was appended to [raw_output], so the next header
    line changes a record that is already in the output. *)
Theorem compact_record_changes_after_append :
  (∃ st1 st2,
     process_line init (hash40 ++ " fix bug") = Ok st1 ∧
     process_line st1 "Merge: 3c4d 5e6f" = Ok st2 ∧
     raw_output st1 = [output_line st1] ∧
     raw_output st2 = raw_output st1 ∧
     contents st1 = [compact_record hash40 "fix bug"] ∧
     contents st2 =
       [<["merge" := VStr "3c4d 5e6f"]> (compact_record hash40 "fix bug")]) ∧
  parse (text [hash40 ++ " fix bug"; "Merge: 3c4d 5e6f"]) false false =
    Ok [ <["merge" := VStr "3c4d 5e6f"]> (compact_record hash40 "fix bug");
         <["merge" := VStr "3c4d 5e6f"]> (compact_record hash40 "fix bug") ].
Proof.
  split; [|by vm_compute].
  eexists _, _. split_and!; [by vm_compute | by vm_compute | ..];
    by vm_compute.
Qed.

(** C5, on the code: the compact branch binds [output_line] to a new
    dictionary without sealing the record that was open, which is
    therefore in no output. *)
Theorem compact_line_drops_open_record :
  (∃ st1 st2,
     process_line init "commit 1a2b" = Ok st1 ∧
     cur st1 = {[ "commit" := VStr "1a2b" ]} ∧
     raw_output st1 = [] ∧
     process_line st1 (hash40 ++ " fix bug") = Ok st2 ∧
     contents st2 = [compact_record hash40 "fix bug"]) ∧
  parse (text ["commit 1a2b"; hash40 ++ " fix bug"]) false false =
    Ok [ compact_record hash40 "fix bug"; compact_record hash40 "fix bug" ].
Proof.
  split; [|by vm_compute].
  eexists _, _. split_and!; [by vm_compute | ..]; by vm_compute.
Qed.

(** ** The diffstat *)

(** C7, on the code: the count of insertions is a mandatory group of
    the pattern and only the word after it is optional, so the number
    of a summary line that has a deletions clause alone is read as the
    count of insertions, and [deletions] is "0".  With the insertions
    clause alone the counts are the expected ones. *)
Theorem deletions_read_as_insertions :
  parse (text ["commit 1a2b"; " 3 files changed, 10 insertions(+)"])
        false false =
    Ok [ {[ "commit" := VStr "1a2b";
            "stats" := VStats {| files_changed := "3"; insertions := "10";
                                 deletions := "0"; files := [] |} ]} ] ∧
  parse (text ["commit 1a2b"; " 3 files changed, 5 deletions(-)"])
        false false =
    Ok [ {[ "commit" := VStr "1a2b";
            "stats" := VStats {| files_changed := "3"; insertions := "5";
                                 deletions := "0"; files := [] |} ]} ] ∧
  re_match changes_pattern " 3 files changed, 5 deletions(-)" =
    Some {[ "files" := "3"; "insertions" := "5" ]} ∧
  re_match changes_pattern
           " 3 files changed, 10 insertions(+), 5 deletions(-)" =
    Some {[ "files" := "3"; "insertions" := "10"; "deletions" := "5" ]}.
Proof. split_and!; by vm_compute. Qed.

(** C8, on the code: the seal appends the list of buffered names to
    [files] as one element, so [files] is a list that holds one list of
    names; and when the record has no [stats] key the seal raises
    [KeyError] instead of dropping the names. *)
Theorem file_list_nested_or_raises :
  parse (text [ "commit 1a2b";
                " a.txt | 2 +-";
                " b.txt | 1 +";
                " 2 files changed, 2 insertions(+), 1 deletion(-)" ])
        false false =
    Ok [ {[ "commit" := VStr "1a2b";
            "stats" := VStats {| files_changed := "2"; insertions := "2";
                                 deletions := "1";
                                 files := [["a.txt"; "b.txt"]] |} ]} ] ∧
  parse (text ["commit 1a2b"; " a.txt | 2 +-"]) false false =
    Raise KeyError.
Proof. split; by vm_compute. Qed.


(** ** A record as a function of its own lines *)

Lemma step_well_formed (st st' : state) (line : string) :
  process_line st line = Ok st' → well_formed line = true.
Proof.
  rewrite process_line_by_role. unfold well_formed, rest_of, item.
  destruct (classify line); try done.
  - destruct (split1 line) as [|tok [|msg ?]]; by simpl.
  - destruct (if truthy (cur st) then _ else _); [|done]. simpl.
    by destruct (split1 line !! 1).
  - by destruct (split1 line !! 1).
  - destruct (split1 line !! 1) as [rest|]; [|done]. simpl.
    by destruct (rsplit1 rest) as [|name [|email ?]].
  - by destruct (split1 line !! 1).
  - by destruct (split1 line !! 1).
  - by destruct (split1 line !! 1).
  - destruct (split1 line !! 1) as [rest|]; [|done]. simpl.
    by destruct (rsplit1 rest) as [|name [|email ?]].
  - by destruct (re_match changes_pattern line).
Qed.

Lemma step_assign (st st' : state) (line : string) :
  wf st → ¬ opens_record (classify line) →
  process_line st line = Ok st' →
  cur st' = assign line (cur st) ∧
  file_list st' =
    (if decide (classify line = FileStatLine)
     then file_list st ++ [file_name line] else file_list st)%list.
Proof.
  intros Hwf Hrole. rewrite process_line_by_role.
  unfold assign, rest_field, identity_fields, summary_stats, rest_of, item.
  destruct (classify line) eqn:Hcl;
    try (exfalso; apply Hrole; unfold opens_record; by eauto);
    rewrite ?decide_True by done; rewrite ?decide_False by done.
  - destruct (split1 line !! 1) as [v|]; [|done]. simpl. intros [= <-].
    by rewrite cur_setitem.
  - destruct (split1 line !! 1) as [rest|]; [|done]. simpl.
    destruct (rsplit1 rest) as [|name [|email ?]]; try done.
    simpl. intros [= <-].
    by rewrite !cur_setitem by (try apply wf_setitem; done).
  - destruct (split1 line !! 1) as [v|]; [|done]. simpl. intros [= <-].
    by rewrite cur_setitem.
  - destruct (split1 line !! 1) as [v|]; [|done]. simpl. intros [= <-].
    by rewrite cur_setitem.
  - destruct (split1 line !! 1) as [v|]; [|done]. simpl. intros [= <-].
    by rewrite cur_setitem.
  - destruct (split1 line !! 1) as [rest|]; [|done]. simpl.
    destruct (rsplit1 rest) as [|name [|email ?]]; try done.
    simpl. intros [= <-].
    by rewrite !cur_setitem by (try apply wf_setitem; done).
  - by intros [= <-].
  - by intros [= <-].
  - destruct (re_match changes_pattern line) as [changes|]; [|done].
    simpl. intros [= <-]. by rewrite cur_setitem.
  - by intros [= <-].
Qed.

Lemma seal_cur (st st2 : state) :
  wf st → seal st = Ok st2 →
  cur st2 = sealed_dict (cur st) (message_lines st) (file_list st).
Proof.
  intros Hwf. rewrite seal_unfold. unfold sealed_dict.
  assert (cur (sealed_message st) =
            if nonempty (message_lines st)
            then <["message" := VStr (join newline (message_lines st))]> (cur st)
            else cur st) as Hcur.
  { unfold sealed_message. destruct (nonempty _); [|done].
    by rewrite cur_setitem. }
  rewrite <- Hcur.
  destruct (nonempty (file_list st)).
  - unfold append_files.
    destruct (cur (sealed_message st) !! "stats") as [[?|s]|]; try done.
    simpl. intros [= <-].
    change (cur (append_output ?s)) with (cur s).
    rewrite cur_setitem by by apply wf_sealed_message.
    replace (file_list (sealed_message st)) with (file_list st); [done|].
    unfold sealed_message. by destruct (nonempty _).
  - simpl. by intros [= <-].
Qed.

Lemma assign_commit (line : string) (d : dict) :
  assign line d !! "commit" = d !! "commit".
Proof.
  unfold assign, rest_field, identity_fields.
  destruct (classify line); try done.
  - destruct (rest_of line); [|done]. by rewrite lookup_insert_ne.
  - destruct (rest_of line) as [rest|]; [|done].
    destruct (rsplit1 rest) as [|name [|email ?]]; try done.
    by rewrite !lookup_insert_ne.
  - destruct (rest_of line); [|done]. by rewrite lookup_insert_ne.
  - destruct (rest_of line); [|done]. by rewrite lookup_insert_ne.
  - destruct (rest_of line); [|done]. by rewrite lookup_insert_ne.
  - destruct (rest_of line) as [rest|]; [|done].
    destruct (rsplit1 rest) as [|name [|email ?]]; try done.
    by rewrite !lookup_insert_ne.
  - destruct (summary_stats line); [|done]. by rewrite lookup_insert_ne.
Qed.

Lemma assigned_commit (seg : list string) : ∀ d,
  foldl (λ d line, assign line d) d seg !! "commit" = d !! "commit".
Proof.
  induction seg as [|line seg IH]; intros d; simpl; [done|].
  by rewrite IH, assign_commit.
Qed.

Lemma building_has_commit (st : state) (c : string) (seg : list string) :
  building st c seg → has_commit (cur st).
Proof.
  intros (_ & -> & _). unfold has_commit.
  rewrite assigned_commit. by simplify_map_eq.
Qed.

Lemma building_step (st st' : state) (c : string) (seg : list string)
      (line : string) :
  building st c seg → ¬ opens_record (classify line) →
  process_line st line = Ok st' →
  building st' c (seg ++ [line]) ∧ contents st' = contents st.
Proof.
  intros (Hun & Hcur & Hmsg & Hfiles & Hok) Hrole Hstep.
  pose proof Hun as [Hwf Hna].
  destruct (step_same_record st st' line Hwf Hrole Hstep)
    as ((Hwf' & Hr & Ho & _ & Hf & _) & _ & _ & _ & Hmsg').
  destruct (step_assign st st' line Hwf Hrole Hstep) as [Hcur' Hfiles'].
  split; [|by apply contents_same].
  split_and!.
  - split; [done | by rewrite Hr, Ho].
  - by rewrite Hcur', Hcur, foldl_app.
  - rewrite Hmsg', lines_of_role_snoc, fmap_app, Hmsg.
    destruct (decide (classify line = MessageLine)); simpl;
      [done | by rewrite app_nil_r].
  - rewrite Hfiles', lines_of_role_snoc, fmap_app, Hfiles.
    destruct (decide (classify line = FileStatLine)); simpl;
      [done | by rewrite app_nil_r].
  - apply Forall_app. split; [done|].
    constructor; [by eapply step_well_formed | constructor].
Qed.

Lemma seal_needs_stats (st st2 : state) :
  wf st → seal st = Ok st2 → file_list st ≠ [] →
  ∃ s, cur st !! "stats" = Some (VStats s).
Proof.
  intros Hwf. rewrite seal_unfold. intros Hseal Hne.
  destruct (file_list st) as [|name names] eqn:Hfl; [done|].
  simpl in Hseal. unfold append_files in Hseal.
  rewrite cur_sealed_message_ne in Hseal by done.
  destruct (cur st !! "stats") as [[?|stats0]|]; try done. by eauto.
Qed.

Lemma building_seal (st st2 : state) (c : string) (seg : list string) :
  building st c seg → seal st = Ok st2 →
  contents st2 = (contents st ++ [record_of c seg])%list ∧
  record_lines_ok c seg.
Proof.
  intros (Hun & Hcur & Hmsg & Hfiles & Hok) Hseal. split.
  - rewrite (unshared_seal st st2 Hun Hseal).
    rewrite (seal_cur st st2 (proj1 Hun) Hseal).
    unfold record_of. by rewrite Hcur, Hmsg, Hfiles.
  - split; [done|]. intros Hne. rewrite <- Hcur.
    apply (seal_needs_stats st st2 (proj1 Hun) Hseal).
    rewrite Hfiles. by destruct (lines_of_role FileStatLine seg).
Qed.

Lemma building_boundary (st st' : state) (c : string) (seg : list string)
      (line : string) :
  building st c seg → classify line = RecordBoundary →
  process_line st line = Ok st' →
  ∃ c', rest_of line = Some c' ∧ building st' c' [] ∧
        contents st' = (contents st ++ [record_of c seg])%list ∧
        record_lines_ok c seg.
Proof.
  intros Hb Hcl Hstep. pose proof Hb as (Hun & _). pose proof Hun as [Hwf Hna].
  pose proof (has_commit_truthy _ (building_has_commit _ _ _ Hb)) as Htr.
  destruct (step_boundary_open st st' line Hwf Htr Hcl Hstep)
    as (st2 & v & Hseal & Hv & Hwf' & Hr & Ho & Hl & Hf & Hcur & Hm & Hfl).
  destruct (seal_Ok st st2 Hwf Hseal) as (_ & Hr2 & _).
  destruct (building_seal st st2 c seg Hb Hseal) as [Hsealed Hok].
  exists v. split; [done|]. split_and!; [| |done].
  - split_and!; [|done|done|done|constructor].
    split; [done|]. rewrite Hr, Ho. destruct Hwf as [Hlt Hall].
    apply Forall_app. split.
    + eapply Forall_impl; [exact Hall|]. simpl. intros a Ha. lia.
    + constructor; [lia|constructor].
  - rewrite <- Hsealed.
    unfold contents. rewrite Hr, Hr2.
    apply Forall_fmap_ext_1. destruct Hwf as [Hlt Hall].
    apply Forall_app. split.
    + eapply Forall_impl; [exact Hall|]. simpl. intros a Ha. by apply Hf.
    + constructor; [by apply Hf|constructor].
Qed.

Lemma run_building (rest : list string) : ∀ st b c seg st1 st2,
  building st c seg → rest_of b = Some c →
  Forall (λ line, classify line ≠ CompactCommit) rest →
  run_lines rest st = Ok st1 → seal st1 = Ok st2 →
  ∃ recs, contents st2 = (contents st ++ recs)%list ∧
          Forall2 record_from_lines recs (records_from b seg rest).
Proof.
  induction rest as [|line rest IH]; intros st b c seg st1 st2 Hb Hc Hnc;
    simpl.
  - intros [= <-] Hseal.
    destruct (building_seal st st2 c seg Hb Hseal) as [Hsealed Hok].
    exists [record_of c seg]. split; [done|].
    constructor; [by exists c | constructor].
  - intros Hrun Hseal. apply bind_Ok_inv in Hrun as (st' & Hstep & Hrun).
    apply Forall_cons in Hnc as [Hline Hnc].
    destruct (decide (classify line = RecordBoundary)) as [Hcl|Hcl].
    + destruct (building_boundary st st' c seg line Hb Hcl Hstep)
        as (c' & Hc' & Hb' & Hcont & Hok).
      destruct (IH st' line c' [] st1 st2 Hb' Hc' Hnc Hrun Hseal)
        as (recs & Hc2 & Hall).
      exists (record_of c seg :: recs). split.
      * by rewrite Hc2, Hcont, <- app_assoc.
      * constructor; [by exists c | done].
    + destruct (building_step st st' c seg line Hb) as [Hb' Hcont];
        [by intros [?|?] | done |].
      destruct (IH st' b c (seg ++ [line])%list st1 st2 Hb' Hc Hnc Hrun Hseal)
        as (recs & Hc2 & Hall).
      exists recs. split; [by rewrite Hc2, Hcont | done].
Qed.

Lemma building_run (rest : list string) : ∀ st c seg st1,
  building st c seg →
  Forall (λ line, classify line ≠ CompactCommit) rest →
  run_lines rest st = Ok st1 → has_commit (cur st1).
Proof.
  induction rest as [|line rest IH]; intros st c seg st1 Hb Hnc; simpl.
  - intros [= <-]. by eapply building_has_commit.
  - intros Hrun. apply bind_Ok_inv in Hrun as (st' & Hstep & Hrun).
    apply Forall_cons in Hnc as [Hline Hnc].
    destruct (decide (classify line = RecordBoundary)) as [Hcl|Hcl].
    + destruct (building_boundary st st' c seg line Hb Hcl Hstep)
        as (c' & _ & Hb' & _).
      by eapply IH.
    + destruct (building_step st st' c seg line Hb) as [Hb' _];
        [by intros [?|?] | done |].
      by eapply IH.
Qed.

(** The output of a listing that starts with a commit line and has no
    compact line, record by record. *)
Lemma parse_lines_record_of (b : string) (rest : list string)
      (out : list dict) :
  classify b = RecordBoundary →
  Forall (λ line, classify line ≠ CompactCommit) rest →
  parse_lines (b :: rest) = Ok out →
  Forall2 record_from_lines out (records_from b [] rest).
Proof.
  intros Hb Hnc. unfold parse_lines. simpl. intros Hparse.
  apply bind_Ok_inv in Hparse as (st1 & Hrun & Hparse).
  apply bind_Ok_inv in Hrun as (st0 & Hstep & Hrun).
  apply bind_Ok_inv in Hparse as (st2 & Hfin & [= <-]).
  destruct (step_boundary init st0 b Hb Hstep) as (v & Hv & Hst0).
  change (truthy (cur init)) with false in Hst0. cbv iota in Hst0.
  subst st0.
  assert (building (setitem "commit" (VStr v) init) v []) as Hbuild.
  { split_and!;
      [|by rewrite cur_setitem by apply wf_init|done|done|constructor].
    split; [by apply wf_setitem, wf_init | constructor]. }
  rewrite (has_commit_truthy _ (building_run _ _ _ _ _ Hbuild Hnc Hrun)) in Hfin.
  destruct (run_building rest _ b v [] st1 st2 Hbuild Hv Hnc Hrun Hfin)
    as (recs & Hcont & Hall).
  by rewrite Hcont.
Qed.


(** ** The fields of a record *)

Lemma sealed_dict_lookup_ne (d : dict) (msgs names : list string) (k : string) :
  k ≠ "message" → k ≠ "stats" → sealed_dict d msgs names !! k = d !! k.
Proof.
  intros Hm Hs. unfold sealed_dict.
  assert ((if nonempty msgs
           then <["message" := VStr (join newline msgs)]> d else d) !! k
          = d !! k) as Hd1.
  { destruct (nonempty msgs); [by rewrite lookup_insert_ne | done]. }
  destruct (nonempty names); [|done].
  destruct (_ !! "stats") as [[?|s]|]; try done.
  by rewrite lookup_insert_ne.
Qed.

Lemma assign_lookup_ne (line : string) (d : dict) (k : string) :
  ¬ writes k line → assign line d !! k = d !! k.
Proof.
  unfold writes, assign, rest_field, identity_fields.
  destruct (classify line); simpl; intros Hk; try done.
  - destruct (rest_of line); [|done]. rewrite lookup_insert_ne; [done|].
    intros <-. apply Hk. set_solver.
  - destruct (rest_of line) as [rest|]; [|done].
    destruct (rsplit1 rest) as [|name [|email ?]]; try done.
    rewrite !lookup_insert_ne; [done| |]; intros <-; apply Hk; set_solver.
  - destruct (rest_of line); [|done]. rewrite lookup_insert_ne; [done|].
    intros <-. apply Hk. set_solver.
  - destruct (rest_of line); [|done]. rewrite lookup_insert_ne; [done|].
    intros <-. apply Hk. set_solver.
  - destruct (rest_of line); [|done]. rewrite lookup_insert_ne; [done|].
    intros <-. apply Hk. set_solver.
  - destruct (rest_of line) as [rest|]; [|done].
    destruct (rsplit1 rest) as [|name [|email ?]]; try done.
    rewrite !lookup_insert_ne; [done| |]; intros <-; apply Hk; set_solver.
  - destruct (summary_stats line); [|done].
    rewrite lookup_insert_ne; [done|]. intros <-. apply Hk. set_solver.
Qed.

(** A well-formed line gives the keys of its role the same values
    whatever the dictionary held. *)
Lemma assign_lookup_writes (line : string) (d : dict) (k : string) :
  writes k line → well_formed line = true →
  assign line d !! k = assign line ∅ !! k ∧ is_Some (assign line ∅ !! k).
Proof.
  unfold writes, well_formed, assign, rest_field, identity_fields,
    summary_stats.
  destruct (classify line); simpl; intros Hk Hwf;
    try (by apply elem_of_nil in Hk).
  - apply list_elem_of_singleton in Hk as ->.
    destruct (rest_of line); [|done]. by rewrite !lookup_insert_eq.
  - destruct (rest_of line) as [rest|]; [|done].
    destruct (rsplit1 rest) as [|name [|email ?]];
      try (by apply bool_decide_eq_true in Hwf; simpl in Hwf; lia).
    apply elem_of_cons in Hk as [->|Hk].
    + rewrite !lookup_insert_ne by done. by rewrite !lookup_insert_eq.
    + apply list_elem_of_singleton in Hk as ->. by rewrite !lookup_insert_eq.
  - apply list_elem_of_singleton in Hk as ->.
    destruct (rest_of line); [|done]. by rewrite !lookup_insert_eq.
  - apply list_elem_of_singleton in Hk as ->.
    destruct (rest_of line); [|done]. by rewrite !lookup_insert_eq.
  - apply list_elem_of_singleton in Hk as ->.
    destruct (rest_of line); [|done]. by rewrite !lookup_insert_eq.
  - destruct (rest_of line) as [rest|]; [|done].
    destruct (rsplit1 rest) as [|name [|email ?]];
      try (by apply bool_decide_eq_true in Hwf; simpl in Hwf; lia).
    apply elem_of_cons in Hk as [->|Hk].
    + rewrite !lookup_insert_ne by done. by rewrite !lookup_insert_eq.
    + apply list_elem_of_singleton in Hk as ->. by rewrite !lookup_insert_eq.
  - apply list_elem_of_singleton in Hk as ->.
    destruct (re_match changes_pattern line); [|done]. simpl.
    by rewrite !lookup_insert_eq.
Qed.

#[global] Instance writes_dec (k line : string) : Decision (writes k line).
Proof. unfold writes. apply _. Defined.

(** The last line that assigns a key decides its value. *)
Lemma last_writer (k : string) (seg : list string) (d : dict) :
  Forall (λ line, well_formed line = true) seg →
  foldl (λ d line, assign line d) d seg !! k =
  match last (filter (writes k) seg) with
  | Some line => assign line ∅ !! k
  | None => d !! k
  end.
Proof.
  induction seg as [|line seg IH] using rev_ind; intros Hok; [done|].
  apply Forall_app in Hok as [Hok Hline].
  apply Forall_cons in Hline as [Hline _].
  rewrite foldl_app, filter_app. simpl. rewrite filter_cons, filter_nil.
  destruct (decide (writes k line)) as [Hw|Hw].
  - rewrite last_snoc.
    by destruct (assign_lookup_writes line
                   (foldl (λ d line, assign line d) d seg) k Hw Hline).
  - rewrite app_nil_r, assign_lookup_ne by done. by apply IH.
Qed.


Example stat_listing_parsed :
  parse stat_listing false false = Ok stat_listing_out.
Proof. vm_compute. reflexivity. Qed.

Lemma records_from_segments (rest : list string) : ∀ b seg,
  (records_from b seg rest).*2 = segments_from seg rest.
Proof.
  induction rest as [|line rest IH]; intros b seg; simpl; [done|].
  destruct (decide (classify line = RecordBoundary)); simpl;
    by rewrite IH.
Qed.

Lemma records_from_boundaries (rest : list string) : ∀ b seg,
  (records_from b seg rest).*1 =
  b :: filter (λ line, classify line = RecordBoundary) rest.
Proof.
  induction rest as [|line rest IH]; intros b seg; simpl; [done|].
  rewrite filter_cons.
  destruct (decide (classify line = RecordBoundary)); simpl;
    by rewrite IH.
Qed.

(** The records of an accepted multi-line listing, each with the lines
    of its record alone. *)
Lemma parse_record_segments (data : string) (raw quiet : bool) (b : string)
      (rest : list string) (out : list dict) :
  splitlines data = b :: rest →
  classify b = RecordBoundary →
  Forall (λ line, classify line ≠ CompactCommit) rest →
  parse data raw quiet = Ok out →
  Forall2 (λ d seg, ∃ c, d = record_of c seg ∧ record_lines_ok c seg)
          out (segments rest).
Proof.
  intros Hlines Hb Hnc. rewrite parse_unguarded, Hlines. intros Hparse.
  unfold segments. rewrite <- (records_from_segments rest b []).
  apply Forall2_fmap_r.
  eapply Forall2_impl; [by eapply parse_lines_record_of|].
  intros d r (c & _ & Hd & Hok). by eauto.
Qed.

Lemma record_of_lookup (c : string) (seg : list string) (k : string) :
  k ≠ "message" → k ≠ "stats" → k ≠ "commit" →
  Forall (λ line, well_formed line = true) seg →
  record_of c seg !! k =
  match last (filter (writes k) seg) with
  | Some line => assign line ∅ !! k
  | None => None
  end.
Proof.
  intros Hm Hs Hc Hok. unfold record_of.
  rewrite sealed_dict_lookup_ne, last_writer by done.
  destruct (last _); [done|]. by rewrite lookup_singleton_ne.
Qed.

Lemma last_filter_Some {A : Type} (P : A → Prop) `{∀ x, Decision (P x)}
      (l : list A) (x : A) :
  last (filter P l) = Some x → P x ∧ x ∈ l.
Proof.
  intros Hlast. apply last_Some_elem_of in Hlast.
  by apply list_elem_of_filter in Hlast.
Qed.

(** X1: in a listing that starts with a commit line and has no compact
    line, the output has one record for every commit line, in the
    order of these lines, and each record is [record_of] applied to
    what follows [commit ] on its line and to the lines up to the next
    commit line: no record depends on the lines of another. *)
Theorem records_depend_on_own_lines
  (data : string) (raw quiet : bool) (b : string) (rest : list string)
  (out : list dict) :
  splitlines data = b :: rest →
  classify b = RecordBoundary →
  Forall (λ line, classify line ≠ CompactCommit) rest →
  parse data raw quiet = Ok out →
  Forall2 (λ d r, ∃ c, split1 r.1 !! 1 = Some c ∧ d = record_of c r.2)
          out (records_from b [] rest).
Proof.
  intros Hlines Hb Hnc. rewrite parse_unguarded, Hlines. intros Hparse.
  eapply Forall2_impl; [by eapply parse_lines_record_of|].
  intros d r (c & Hc & Hd & _). by eauto.
Qed.

Lemma records_depend_on_own_lines_witness :
  splitlines stat_listing = "commit 1a2b" :: stat_listing_rest ∧
  classify "commit 1a2b" = RecordBoundary ∧
  Forall (λ line, classify line ≠ CompactCommit) stat_listing_rest ∧
  parse stat_listing false false = Ok stat_listing_out ∧
  Forall2 (λ d r, ∃ c, split1 r.1 !! 1 = Some c ∧ d = record_of c r.2)
          stat_listing_out (records_from "commit 1a2b" [] stat_listing_rest).
Proof.
  assert (splitlines stat_listing = "commit 1a2b" :: stat_listing_rest)
    as Hlines by (vm_compute; reflexivity).
  assert (classify "commit 1a2b" = RecordBoundary)
    as Hb by (vm_compute; reflexivity).
  assert (Forall (λ line, classify line ≠ CompactCommit) stat_listing_rest)
    as Hnc.
  { unfold stat_listing_rest.
    repeat (constructor; [vm_compute; discriminate|]). constructor. }
  assert (parse stat_listing false false = Ok stat_listing_out)
    as Hparse by (vm_compute; reflexivity).
  split_and!; [exact Hlines | exact Hb | exact Hnc | exact Hparse |].
  exact (records_depend_on_own_lines _ _ _ _ _ _ Hlines Hb Hnc Hparse).
Defined.

(** X2: in such a listing the commits of the output are, in order, what
    follows [commit ] on the commit lines of the input; so the output
    has as many records as the input has commit lines, the last record
    included. *)
Theorem commits_in_input_order
  (data : string) (raw quiet : bool) (b : string) (rest : list string)
  (out : list dict) :
  splitlines data = b :: rest →
  classify b = RecordBoundary →
  Forall (λ line, classify line ≠ CompactCommit) rest →
  parse data raw quiet = Ok out →
  (λ d : dict, d !! "commit") <$> out =
  (λ line, VStr <$> split1 line !! 1) <$>
    (b :: filter (λ line, classify line = RecordBoundary) rest).
Proof.
  intros Hlines Hb Hnc. rewrite parse_unguarded, Hlines. intros Hparse.
  rewrite <- (records_from_boundaries rest b []).
  rewrite <- list_fmap_compose.
  apply list_eq_Forall2, Forall2_fmap.
  eapply Forall2_impl; [by eapply parse_lines_record_of|].
  intros d r (c & Hc & -> & _). simpl. unfold rest_of in Hc. rewrite Hc.
  unfold record_of. rewrite sealed_dict_lookup_ne, assigned_commit by done.
  by simplify_map_eq.
Qed.

(** Evaluates the hypotheses a statement about a listing makes at a
    given listing. *)
Ltac listing_hypothesis :=
  lazymatch goal with
  | |- Forall _ _ =>
      cbv delta [stat_listing_rest merge_listing_rest];
      repeat (constructor; [vm_compute; discriminate|]); constructor
  | |- _ => vm_compute; reflexivity
  end.

Lemma commits_in_input_order_witness :
  splitlines stat_listing = "commit 1a2b" :: stat_listing_rest ∧
  classify "commit 1a2b" = RecordBoundary ∧
  Forall (λ line, classify line ≠ CompactCommit) stat_listing_rest ∧
  parse stat_listing false false = Ok stat_listing_out ∧
  (λ d : dict, d !! "commit") <$> stat_listing_out =
  (λ line, VStr <$> split1 line !! 1) <$>
    ("commit 1a2b"
       :: filter (λ line, classify line = RecordBoundary) stat_listing_rest).
Proof.
  split_and!; [listing_hypothesis .. |].
  apply (commits_in_input_order stat_listing false false);
    listing_hypothesis.
Defined.

(** *** The identity lines *)

Lemma split1_length (s : string) : (List.length (split1 s) ≤ 2)%nat.
Proof.
  unfold split1. destruct (is_empty _); [simpl; lia|].
  destruct (is_empty _); simpl; lia.
Qed.

Lemma rsplit1_length (s : string) : (List.length (rsplit1 s) ≤ 2)%nat.
Proof.
  unfold rsplit1. rewrite length_rev, length_map. apply split1_length.
Qed.

Lemma identity_line (line : string) :
  classify line = AuthorHeader ∨ classify line = CommitterHeader →
  well_formed line = true →
  ∃ rest name email,
    split1 line !! 1 = Some rest ∧ rsplit1 rest = [name; email].
Proof.
  unfold well_formed, rest_of. intros [-> | ->] Hwf.
  - destruct (split1 line !! 1) as [rest|]; [|done].
    apply bool_decide_eq_true in Hwf. pose proof (rsplit1_length rest).
    destruct (rsplit1 rest) as [|name [|email [|? ?]]] eqn:Hsplit;
      simpl in *; try lia. by exists rest, name, email.
  - destruct (split1 line !! 1) as [rest|]; [|done].
    apply bool_decide_eq_true in Hwf. pose proof (rsplit1_length rest).
    destruct (rsplit1 rest) as [|name [|email [|? ?]]] eqn:Hsplit;
      simpl in *; try lia. by exists rest, name, email.
Qed.

Lemma writes_iff_role (k : string) (r : role) (line : string) :
  (∀ r', bool_decide (k ∈ keys_of_role r') = bool_decide (r' = r)) →
  writes k line ↔ classify line = r.
Proof.
  intros Hkeys. unfold writes.
  by rewrite <- (bool_decide_spec (k ∈ _)), Hkeys, bool_decide_spec.
Qed.

Lemma writes_author (line : string) :
  (writes "author" line ↔ classify line = AuthorHeader) ∧
  (writes "author_email" line ↔ classify line = AuthorHeader).
Proof. split; apply writes_iff_role; by intros []. Qed.

Lemma writes_committer (line : string) :
  (writes "commit_by" line ↔ classify line = CommitterHeader) ∧
  (writes "commit_by_email" line ↔ classify line = CommitterHeader).
Proof. split; apply writes_iff_role; by intros []. Qed.

Lemma record_author (c : string) (seg : list string) :
  Forall (λ line, well_formed line = true) seg →
  identity_spec AuthorHeader "author" "author_email" (record_of c seg) seg.
Proof.
  intros Hok. unfold identity_spec.
  rewrite !record_of_lookup by done.
  rewrite (list_filter_iff (writes "author") (λ l, classify l = AuthorHeader))
    by (intros l; apply writes_author).
  rewrite (list_filter_iff (writes "author_email")
             (λ l, classify l = AuthorHeader))
    by (intros l; apply writes_author).
  unfold lines_of_role.
  destruct (last _) as [line|] eqn:Hlast; [|done].
  apply last_filter_Some in Hlast as [Hcl Hin].
  rewrite Forall_forall in Hok.
  destruct (identity_line line (or_introl Hcl) (Hok line Hin))
    as (rest & name & email & Hrest & Hsplit).
  exists rest, name, email. split; [done|]. split; [done|].
  unfold assign, identity_fields, rest_of. rewrite Hcl, Hrest, Hsplit.
  by simplify_map_eq.
Qed.

Lemma record_committer (c : string) (seg : list string) :
  Forall (λ line, well_formed line = true) seg →
  identity_spec CommitterHeader "commit_by" "commit_by_email"
                (record_of c seg) seg.
Proof.
  intros Hok. unfold identity_spec.
  rewrite !record_of_lookup by done.
  rewrite (list_filter_iff (writes "commit_by")
             (λ l, classify l = CommitterHeader))
    by (intros l; apply writes_committer).
  rewrite (list_filter_iff (writes "commit_by_email")
             (λ l, classify l = CommitterHeader))
    by (intros l; apply writes_committer).
  unfold lines_of_role.
  destruct (last _) as [line|] eqn:Hlast; [|done].
  apply last_filter_Some in Hlast as [Hcl Hin].
  rewrite Forall_forall in Hok.
  destruct (identity_line line (or_intror Hcl) (Hok line Hin))
    as (rest & name & email & Hrest & Hsplit).
  exists rest, name, email. split; [done|]. split; [done|].
  unfold assign, identity_fields, rest_of. rewrite Hcl, Hrest, Hsplit.
  by simplify_map_eq.
Qed.

(** X3: in a listing that starts with a commit line and has no compact
    line, a record has the keys [author] and [author_email] exactly
    when one of its lines starts with [Author: ]; the last such line
    decides both: what follows the first token is split at its last
    run of white space, [author] is the part before it and
    [author_email] the last token without the [<] and [>] at its ends. *)
Theorem author_from_last_author_line
  (data : string) (raw quiet : bool) (b : string) (rest : list string)
  (out : list dict) :
  splitlines data = b :: rest →
  classify b = RecordBoundary →
  Forall (λ line, classify line ≠ CompactCommit) rest →
  parse data raw quiet = Ok out →
  Forall2 (identity_spec AuthorHeader "author" "author_email")
          out (segments rest).
Proof.
  intros Hlines Hb Hnc Hparse.
  eapply Forall2_impl; [by eapply parse_record_segments|].
  intros d seg (c & -> & Hok & _). by apply record_author.
Qed.

Lemma author_from_last_author_line_witness :
  splitlines stat_listing = "commit 1a2b" :: stat_listing_rest ∧
  classify "commit 1a2b" = RecordBoundary ∧
  Forall (λ line, classify line ≠ CompactCommit) stat_listing_rest ∧
  parse stat_listing false false = Ok stat_listing_out ∧
  Forall2 (identity_spec AuthorHeader "author" "author_email")
          stat_listing_out (segments stat_listing_rest).
Proof.
  split_and!; [listing_hypothesis .. |].
  apply (author_from_last_author_line stat_listing false false
           "commit 1a2b"); listing_hypothesis.
Defined.

(** X4: the same for the lines that start with [Commit: ] and the keys
    [commit_by] and [commit_by_email]. *)
Theorem committer_from_last_commit_line
  (data : string) (raw quiet : bool) (b : string) (rest : list string)
  (out : list dict) :
  splitlines data = b :: rest →
  classify b = RecordBoundary →
  Forall (λ line, classify line ≠ CompactCommit) rest →
  parse data raw quiet = Ok out →
  Forall2 (identity_spec CommitterHeader "commit_by" "commit_by_email")
          out (segments rest).
Proof.
  intros Hlines Hb Hnc Hparse.
  eapply Forall2_impl; [by eapply parse_record_segments|].
  intros d seg (c & -> & Hok & _). by apply record_committer.
Qed.

Lemma committer_from_last_commit_line_witness :
  splitlines stat_listing = "commit 1a2b" :: stat_listing_rest ∧
  classify "commit 1a2b" = RecordBoundary ∧
  Forall (λ line, classify line ≠ CompactCommit) stat_listing_rest ∧
  parse stat_listing false false = Ok stat_listing_out ∧
  Forall2 (identity_spec CommitterHeader "commit_by" "commit_by_email")
          stat_listing_out (segments stat_listing_rest).
Proof.
  split_and!; [listing_hypothesis .. |].
  apply (committer_from_last_commit_line stat_listing false false
           "commit 1a2b"); listing_hypothesis.
Defined.

(** *** The date lines *)

Lemma writes_iff_roles (k : string) (roles : list role) (line : string) :
  (∀ r', bool_decide (k ∈ keys_of_role r') = bool_decide (r' ∈ roles)) →
  writes k line ↔ classify line ∈ roles.
Proof.
  intros Hkeys. unfold writes.
  by rewrite <- (bool_decide_spec (k ∈ _)), Hkeys, bool_decide_spec.
Qed.

Lemma record_date (c : string) (seg : list string) :
  Forall (λ line, well_formed line = true) seg →
  rest_field_spec [DateHeader; AuthorDateHeader] "date" (record_of c seg) seg.
Proof.
  intros Hok. unfold rest_field_spec.
  rewrite record_of_lookup by done.
  rewrite (list_filter_iff (writes "date")
             (λ l, classify l ∈ [DateHeader; AuthorDateHeader]))
    by (intros l; apply writes_iff_roles; by intros []).
  destruct (last _) as [line|] eqn:Hlast; [|done].
  apply last_filter_Some in Hlast as [Hcl Hin].
  rewrite Forall_forall in Hok. specialize (Hok line Hin).
  unfold well_formed in Hok. unfold assign, rest_field.
  apply elem_of_cons in Hcl as [Hcl|Hcl];
    [|apply list_elem_of_singleton in Hcl]; rewrite Hcl in *;
    apply bool_decide_eq_true in Hok as [v Hv]; rewrite Hv;
    exists v; by simplify_map_eq.
Qed.

Lemma record_commit_date (c : string) (seg : list string) :
  Forall (λ line, well_formed line = true) seg →
  rest_field_spec [CommitDateHeader] "commit_by_date" (record_of c seg) seg.
Proof.
  intros Hok. unfold rest_field_spec.
  rewrite record_of_lookup by done.
  rewrite (list_filter_iff (writes "commit_by_date")
             (λ l, classify l ∈ [CommitDateHeader]))
    by (intros l; apply writes_iff_roles; by intros []).
  destruct (last _) as [line|] eqn:Hlast; [|done].
  apply last_filter_Some in Hlast as [Hcl Hin].
  rewrite Forall_forall in Hok. specialize (Hok line Hin).
  unfold well_formed in Hok. unfold assign, rest_field.
  apply list_elem_of_singleton in Hcl. rewrite Hcl in *.
  apply bool_decide_eq_true in Hok as [v Hv]. rewrite Hv.
  exists v. by simplify_map_eq.
Qed.

(** X5: in such a listing the key [date] of a record holds what follows
    the first token of its last [Date: ] or [AuthorDate: ] line (the
    two prefixes share the key), and [commit_by_date] what follows the
    first token of its last [CommitDate: ] line; a key is absent when
    the record has no such line. *)
Theorem dates_from_last_date_lines
  (data : string) (raw quiet : bool) (b : string) (rest : list string)
  (out : list dict) :
  splitlines data = b :: rest →
  classify b = RecordBoundary →
  Forall (λ line, classify line ≠ CompactCommit) rest →
  parse data raw quiet = Ok out →
  Forall2 (λ d seg,
             rest_field_spec [DateHeader; AuthorDateHeader] "date" d seg ∧
             rest_field_spec [CommitDateHeader] "commit_by_date" d seg)
          out (segments rest).
Proof.
  intros Hlines Hb Hnc Hparse.
  eapply Forall2_impl; [by eapply parse_record_segments|].
  intros d seg (c & -> & Hok & _).
  split; [by apply record_date | by apply record_commit_date].
Qed.

Lemma dates_from_last_date_lines_witness :
  splitlines stat_listing = "commit 1a2b" :: stat_listing_rest ∧
  classify "commit 1a2b" = RecordBoundary ∧
  Forall (λ line, classify line ≠ CompactCommit) stat_listing_rest ∧
  parse stat_listing false false = Ok stat_listing_out ∧
  Forall2 (λ d seg,
             rest_field_spec [DateHeader; AuthorDateHeader] "date" d seg ∧
             rest_field_spec [CommitDateHeader] "commit_by_date" d seg)
          stat_listing_out (segments stat_listing_rest).
Proof.
  split_and!; [listing_hypothesis .. |].
  apply (dates_from_last_date_lines stat_listing false false
           "commit 1a2b"); listing_hypothesis.
Defined.


(** *** The diffstat of a record *)

Lemma sealed_dict_stats (d : dict) (msgs names : list string) :
  sealed_dict d msgs names !! "stats" =
  if nonempty names then
    match d !! "stats" with
    | Some (VStats s) => Some (VStats (with_files s names))
    | other => other
    end
  else d !! "stats".
Proof.
  unfold sealed_dict.
  assert ((if nonempty msgs
           then <["message" := VStr (join newline msgs)]> d else d) !! "stats"
          = d !! "stats") as Hd1.
  { destruct (nonempty msgs); [by rewrite lookup_insert_ne | done]. }
  destruct (nonempty names); [|done]. rewrite Hd1.
  destruct (d !! "stats") as [[?|s]|] eqn:Hs; rewrite ?Hd1; try done.
  by rewrite lookup_insert_eq.
Qed.

Lemma record_stats (c : string) (seg : list string) :
  record_lines_ok c seg → stats_spec (record_of c seg) seg.
Proof.
  intros [Hok Hfiles]. unfold stats_spec, record_of.
  rewrite sealed_dict_stats. rewrite last_writer in Hfiles |- * by done.
  rewrite (list_filter_iff (writes "stats")
             (λ l, classify l = SummaryStatsLine)) in Hfiles |- *
    by (intros l; apply writes_iff_role; by intros []).
  unfold lines_of_role in *.
  destruct (last (filter (λ l, classify l = SummaryStatsLine) seg))
    as [line|] eqn:Hlast.
  - apply last_filter_Some in Hlast as [Hcl Hin].
    rewrite Forall_forall in Hok. specialize (Hok line Hin).
    unfold well_formed in Hok. rewrite Hcl in Hok.
    apply bool_decide_eq_true in Hok as [changes Hchanges].
    exists changes. split; [done|].
    unfold assign, summary_stats. rewrite Hcl, Hchanges. simpl.
    rewrite lookup_insert_eq.
    by destruct (nonempty (file_name <$> filter _ seg)).
  - rewrite lookup_singleton_ne in Hfiles |- * by done.
    destruct (filter (λ l, classify l = FileStatLine) seg) as [|l ls];
      [done|].
    destruct Hfiles as [s Hs]; done.
Qed.

(** X6: in a listing that starts with a commit line and has no compact
    line, a record has the key [stats] exactly when one of its lines is
    a summary line; the counts are the groups of the last summary line
    of the record, and [files] is empty when the record has no file
    line and else holds one list, the names of all the file lines of
    the record in input order, those after the summary line included.
    A record with no summary line has no file line. *)
Theorem stats_from_summary_and_file_lines
  (data : string) (raw quiet : bool) (b : string) (rest : list string)
  (out : list dict) :
  splitlines data = b :: rest →
  classify b = RecordBoundary →
  Forall (λ line, classify line ≠ CompactCommit) rest →
  parse data raw quiet = Ok out →
  Forall2 stats_spec out (segments rest).
Proof.
  intros Hlines Hb Hnc Hparse.
  eapply Forall2_impl; [by eapply parse_record_segments|].
  intros d seg (c & -> & Hok). by apply record_stats.
Qed.

Lemma stats_from_summary_and_file_lines_witness :
  splitlines stat_listing = "commit 1a2b" :: stat_listing_rest ∧
  classify "commit 1a2b" = RecordBoundary ∧
  Forall (λ line, classify line ≠ CompactCommit) stat_listing_rest ∧
  parse stat_listing false false = Ok stat_listing_out ∧
  Forall2 stats_spec stat_listing_out (segments stat_listing_rest).
Proof.
  split_and!; [listing_hypothesis .. |].
  apply (stats_from_summary_and_file_lines stat_listing false false
           "commit 1a2b"); listing_hypothesis.
Defined.

(** ** Listings put end to end *)

Lemma shape_run_app (l1 l2 : list string) : ∀ sh,
  shape_run sh (l1 ++ l2) = shape_run sh l1 ≫= λ sh1, shape_run sh1 l2.
Proof.
  induction l1 as [|line l1 IH]; intros sh; simpl; [done|].
  destruct (shape_step sh line) as [sh'|]; simpl; [by apply IH | done].
Qed.

Lemma shape_step_opened (sh sh' : shape) (line : string) :
  shape_step sh line = Some sh' → opened sh = true → opened sh' = true.
Proof.
  unfold shape_step. destruct (negb (well_formed line)); [done|].
  destruct (classify line); try (by intros [= <-]).
  destruct (opened sh); [|done].
  destruct (seal_ok sh); by intros [= <-].
Qed.

Lemma shape_run_opened (lines : list string) : ∀ sh sh',
  shape_run sh lines = Some sh' → opened sh = true → opened sh' = true.
Proof.
  induction lines as [|line lines IH]; intros sh sh'; simpl.
  - by intros [= <-].
  - destruct (shape_step sh line) as [sh1|] eqn:Hstep; [|done]. simpl.
    intros Hrun Hop. eapply IH; [exact Hrun|].
    by eapply shape_step_opened.
Qed.

(** A commit line leaves the same shape behind, whether it is the first
    line of a listing or seals a record that can be sealed. *)
Lemma shape_step_boundary (sh : shape) (line : string) :
  classify line = RecordBoundary →
  opened sh = true → seal_ok sh = true →
  shape_step sh line = shape_step shape0 line.
Proof.
  intros Hcl Hop Hseal. unfold shape_step.
  destruct (negb (well_formed line)); [done|].
  by rewrite Hcl, Hop, Hseal.
Qed.

Lemma shape_first_boundary (b : string) (sh : shape) :
  classify b = RecordBoundary → shape_step shape0 b = Some sh →
  opened sh = true.
Proof.
  intros Hcl. unfold shape_step.
  destruct (negb (well_formed b)); [done|]. rewrite Hcl. simpl.
  by intros [= <-].
Qed.

Lemma accepts_app (b1 b2 : string) (rest1 rest2 : list string) :
  classify b1 = RecordBoundary → classify b2 = RecordBoundary →
  accepts (b1 :: rest1) = true → accepts (b2 :: rest2) = true →
  accepts ((b1 :: rest1) ++ b2 :: rest2)%list = true.
Proof.
  intros Hb1 Hb2. unfold accepts. rewrite shape_run_app.
  destruct (shape_run shape0 (b1 :: rest1)) as [sh1|] eqn:Hrun1; [|done].
  intros Hacc1 Hacc2. simpl in Hrun1.
  destruct (shape_step shape0 b1) as [sh0|] eqn:Hstep1; [|done].
  simpl in Hrun1.
  pose proof (shape_run_opened _ _ _ Hrun1
                (shape_first_boundary _ _ Hb1 Hstep1)) as Hop.
  rewrite Hop in Hacc1. simpl in Hacc1.
  cbn [mbind option_bind shape_run] in Hacc2 |- *.
  by rewrite (shape_step_boundary sh1 b2 Hb2 Hop Hacc1).
Qed.

Lemma records_from_app (l1 l2 : list string) (b2 : string) : ∀ b seg,
  classify b2 = RecordBoundary →
  records_from b seg (l1 ++ b2 :: l2) =
  (records_from b seg l1 ++ records_from b2 [] l2)%list.
Proof.
  induction l1 as [|line l1 IH]; intros b seg Hb2; simpl.
  - by rewrite decide_True.
  - destruct (decide (classify line = RecordBoundary)); simpl;
      by rewrite IH.
Qed.

Lemma record_from_lines_unique (d d' : dict) (r : string * list string) :
  record_from_lines d r → record_from_lines d' r → d = d'.
Proof. intros (c & Hc & -> & _) (c' & Hc' & -> & _). congruence. Qed.

Lemma Forall2_unique {A B : Type} (R : A → B → Prop) (l l' : list A)
      (k : list B) :
  (∀ x x' y, R x y → R x' y → x = x') →
  Forall2 R l k → Forall2 R l' k → l = l'.
Proof.
  intros Huniq Hl. revert l'.
  induction Hl as [|x y l k Hxy _ IH]; intros l' Hl'.
  - by apply Forall2_nil_inv_r in Hl'.
  - apply Forall2_cons_inv_r in Hl' as (x' & l'' & Hx'y & Hl'' & ->).
    f_equal; [by eapply Huniq | by apply IH].
Qed.

Lemma parse_lines_app (b1 b2 : string) (rest1 rest2 : list string)
      (out1 out2 : list dict) :
  classify b1 = RecordBoundary → classify b2 = RecordBoundary →
  Forall (λ line, classify line ≠ CompactCommit) rest1 →
  Forall (λ line, classify line ≠ CompactCommit) rest2 →
  parse_lines (b1 :: rest1) = Ok out1 →
  parse_lines (b2 :: rest2) = Ok out2 →
  parse_lines ((b1 :: rest1) ++ b2 :: rest2)%list = Ok (out1 ++ out2)%list.
Proof.
  intros Hb1 Hb2 Hnc1 Hnc2 Hp1 Hp2.
  assert (∃ out, parse_lines ((b1 :: rest1) ++ b2 :: rest2)%list = Ok out)
    as [out Hp].
  { apply parse_lines_accepts, accepts_app; try done;
      apply parse_lines_accepts; by eauto. }
  rewrite Hp. f_equal.
  assert (Forall (λ line, classify line ≠ CompactCommit)
                 (rest1 ++ b2 :: rest2)) as Hnc.
  { apply Forall_app. split; [done|]. constructor; [|done].
    by rewrite Hb2. }
  pose proof (parse_lines_record_of b1 (rest1 ++ b2 :: rest2) out
                Hb1 Hnc Hp) as Hall.
  rewrite records_from_app in Hall by done.
  eapply Forall2_unique; [apply record_from_lines_unique | exact Hall |].
  apply Forall2_app; by apply parse_lines_record_of.
Qed.

(** X7: when the lines of a text are those of two listings put end to
    end, each starting with a commit line and without compact lines,
    and [parse] returns on each listing, it returns on the text, and
    what it returns is the two outputs one after the other. *)
Theorem parse_of_two_listings
  (data1 data2 data : string) (raw quiet : bool) (b1 b2 : string)
  (rest1 rest2 : list string) (out1 out2 : list dict) :
  splitlines data1 = b1 :: rest1 →
  splitlines data2 = b2 :: rest2 →
  splitlines data = ((b1 :: rest1) ++ b2 :: rest2)%list →
  classify b1 = RecordBoundary → classify b2 = RecordBoundary →
  Forall (λ line, classify line ≠ CompactCommit) rest1 →
  Forall (λ line, classify line ≠ CompactCommit) rest2 →
  parse data1 raw quiet = Ok out1 →
  parse data2 raw quiet = Ok out2 →
  parse data raw quiet = Ok (out1 ++ out2)%list.
Proof.
  intros Hl1 Hl2 Hl Hb1 Hb2 Hnc1 Hnc2.
  rewrite !parse_unguarded, Hl1, Hl2, Hl. by apply parse_lines_app.
Qed.

Lemma parse_of_two_listings_witness :
  parse (text [merge_listing; stat_listing]) false false =
    Ok (merge_listing_out ++ stat_listing_out)%list.
Proof.
  apply (parse_of_two_listings merge_listing stat_listing _ false false
           "commit 1a2b" "commit 1a2b" merge_listing_rest stat_listing_rest);
    listing_hypothesis.
Defined.


(** ** What a record can hold *)

Section schema.

Variable P : stats → Prop.
Hypothesis P_summary : ∀ line changes,
  re_match changes_pattern line = Some changes →
  P {| files_changed := or_zero (changes !! "files");
       insertions := or_zero (changes !! "insertions");
       deletions := or_zero (changes !! "deletions");
       files := [] |}.
Hypothesis P_files : ∀ s names, P s → P (with_files s names).

Lemma schema_empty : schema_ok P ∅.
Proof. intros k v Hk. by rewrite lookup_empty in Hk. Qed.

Lemma schema_insert (k : string) (v : value) (d : dict) :
  value_ok P k v → schema_ok P d → schema_ok P (<[k:=v]> d).
Proof.
  intros Hv Hd k' v' Hk'.
  apply lookup_insert_Some in Hk' as [[<- <-]|[_ Hk']]; [done|].
  by apply Hd.
Qed.

Lemma schema_setitem (k : string) (v : value) (st : state) :
  value_ok P k v → Forall (schema_ok P) (heap st) →
  Forall (schema_ok P) (heap (setitem k v st)).
Proof.
  intros Hv Hh. simpl. apply Forall_alter; [done|].
  intros d _ Hd. by apply schema_insert.
Qed.

Lemma schema_bind_new (d : dict) (st : state) :
  schema_ok P d → Forall (schema_ok P) (heap st) →
  Forall (schema_ok P) (heap (bind_new d st)).
Proof.
  intros Hd Hh. simpl. apply Forall_app. split; [done|].
  by constructor.
Qed.

Lemma schema_at_addr (h : list dict) (a : addr) :
  Forall (schema_ok P) h → schema_ok P (at_addr h a).
Proof.
  intros Hh. unfold at_addr. destruct (h !! a) as [d|] eqn:Hd; simpl.
  - rewrite Forall_lookup in Hh. by eapply Hh.
  - apply schema_empty.
Qed.

Lemma schema_string_key (k s : string) :
  k ∈ string_keys → value_ok P k (VStr s).
Proof. done. Qed.

Lemma schema_seal (st st2 : state) :
  Forall (schema_ok P) (heap st) → seal st = Ok st2 →
  Forall (schema_ok P) (heap st2).
Proof.
  intros Hh. rewrite seal_unfold.
  assert (Forall (schema_ok P) (heap (sealed_message st))) as Hh1.
  { unfold sealed_message. destruct (nonempty _); [|done].
    apply schema_setitem; [|done].
    apply schema_string_key. unfold string_keys. set_solver. }
  destruct (nonempty (file_list st)).
  - unfold append_files.
    destruct (cur (sealed_message st) !! "stats") as [[?|s]|] eqn:Hs;
      try done.
    simpl. intros [= <-]. simpl.
    apply (schema_setitem "stats" _ (sealed_message st)); [|done].
    split; [done|]. apply (P_files s).
    by destruct (schema_at_addr _ _ Hh1 _ _ Hs).
  - simpl. by intros [= <-].
Qed.

Lemma schema_step (st st' : state) (line : string) :
  Forall (schema_ok P) (heap st) → process_line st line = Ok st' →
  Forall (schema_ok P) (heap st').
Proof.
  intros Hh. rewrite process_line_by_role. unfold item.
  assert (∀ k, k ∈ string_keys → ∀ s st0,
            Forall (schema_ok P) (heap st0) →
            Forall (schema_ok P) (heap (setitem k (VStr s) st0))) as Hset.
  { intros k Hk s st0 Hh0. by apply schema_setitem. }
  destruct (classify line).
  - destruct (split1 line) as [|commit [|message ?]]; try done.
    simpl. intros [= <-]. simpl. apply Forall_app. split; [done|].
    constructor; [|constructor]. unfold compact_record.
    apply schema_insert; [unfold value_ok, string_keys; set_solver|].
    apply schema_insert; [unfold value_ok, string_keys; set_solver|].
    apply schema_empty.
  - destruct (truthy (cur st)).
    + destruct (seal st) as [st2|] eqn:Hseal; [|done]. simpl.
      destruct (split1 line !! 1) as [v|]; [|done]. simpl.
      intros [= <-]. apply Hset; [unfold string_keys; set_solver|].
      apply (schema_bind_new ∅ st2); [apply schema_empty|].
      by eapply schema_seal.
    + simpl. destruct (split1 line !! 1) as [v|]; [|done]. simpl.
      intros [= <-]. apply Hset; [unfold string_keys; set_solver|done].
  - destruct (split1 line !! 1) as [v|]; [|done]. simpl.
    intros [= <-]. apply Hset; [unfold string_keys; set_solver|done].
  - destruct (split1 line !! 1) as [rest|]; [|done]. simpl.
    destruct (rsplit1 rest) as [|name [|email ?]]; try done. simpl.
    intros [= <-].
    apply Hset; [unfold string_keys; set_solver|].
    apply Hset; [unfold string_keys; set_solver|done].
  - destruct (split1 line !! 1) as [v|]; [|done]. simpl.
    intros [= <-]. apply Hset; [unfold string_keys; set_solver|done].
  - destruct (split1 line !! 1) as [v|]; [|done]. simpl.
    intros [= <-]. apply Hset; [unfold string_keys; set_solver|done].
  - destruct (split1 line !! 1) as [v|]; [|done]. simpl.
    intros [= <-]. apply Hset; [unfold string_keys; set_solver|done].
  - destruct (split1 line !! 1) as [rest|]; [|done]. simpl.
    destruct (rsplit1 rest) as [|name [|email ?]]; try done. simpl.
    intros [= <-].
    apply Hset; [unfold string_keys; set_solver|].
    apply Hset; [unfold string_keys; set_solver|done].
  - by intros [= <-].
  - by intros [= <-].
  - destruct (re_match changes_pattern line) as [changes|] eqn:Hm;
      [|done].
    intros [= <-]. apply schema_setitem; [|done].
    split; [done|]. by eapply P_summary.
  - by intros [= <-].
Qed.

Lemma schema_run (lines : list string) : ∀ st st',
  Forall (schema_ok P) (heap st) → run_lines lines st = Ok st' →
  Forall (schema_ok P) (heap st').
Proof.
  induction lines as [|line rest IH]; intros st st' Hh; simpl.
  - by intros [= <-].
  - intros Hrun. apply bind_Ok_inv in Hrun as (st1 & Hstep & Hrun).
    eapply IH; [|exact Hrun]. by eapply schema_step.
Qed.

Lemma schema_parse (data : string) (raw quiet : bool) (out : list dict) :
  parse data raw quiet = Ok out → Forall (schema_ok P) out.
Proof.
  rewrite parse_unguarded. unfold parse_lines. intros Hparse.
  apply bind_Ok_inv in Hparse as (st & Hrun & Hparse).
  apply bind_Ok_inv in Hparse as (st' & Hfin & [= <-]).
  assert (Forall (schema_ok P) (heap st)) as Hh.
  { eapply schema_run; [|exact Hrun]. simpl.
    constructor; [apply schema_empty | constructor]. }
  assert (Forall (schema_ok P) (heap st')) as Hh'.
  { destruct (truthy (cur st)); [by eapply schema_seal|].
    by injection Hfin as <-. }
  unfold contents. apply Forall_fmap, Forall_forall.
  intros a _. by apply schema_at_addr.
Qed.

End schema.

(** X8: on every input on which [parse] returns, every key of every
    record is one of the nine string keys or [stats]; the value of
    [stats] is a dictionary of counts and every other value is a
    string. *)
Theorem records_fit_schema
  (data : string) (raw quiet : bool) (out : list dict) :
  parse data raw quiet = Ok out →
  ∀ d k v, d ∈ out → d !! k = Some v →
    match v with
    | VStr _ => k ∈ string_keys
    | VStats _ => k = "stats"
    end.
Proof.
  intros Hparse d k v Hd Hk.
  pose proof (schema_parse (λ _, True) (λ _ _ _, I) (λ _ _ _, I)
                data raw quiet out Hparse) as Hall.
  rewrite Forall_forall in Hall. specialize (Hall d Hd k v Hk).
  destruct v; [done | by destruct Hall].
Qed.

Lemma records_fit_schema_witness :
  parse stat_listing false false = Ok stat_listing_out ∧
  (∀ d k v, d ∈ stat_listing_out → d !! k = Some v →
     match v with
     | VStr _ => k ∈ string_keys
     | VStats _ => k = "stats"
     end).
Proof.
  assert (parse stat_listing false false = Ok stat_listing_out)
    as Hparse by (vm_compute; reflexivity).
  split; [exact Hparse|].
  exact (records_fit_schema stat_listing false false _ Hparse).
Defined.

(** ** The counts of the summary line *)

Lemma length_append (w s : string) :
  String.length (w ++ s) = (String.length w + String.length s)%nat.
Proof. induction w as [|c w IH]; simpl; [done | by rewrite IH]. Qed.

Lemma chars_append (w s : string) :
  chars (w ++ s) = (chars w ++ chars s)%list.
Proof.
  unfold chars. induction w as [|c w IH]; simpl; [done | by rewrite IH].
Qed.

Lemma length_chars (w : string) :
  List.length (chars w) = String.length w.
Proof.
  unfold chars. induction w as [|c w IH]; simpl; [done | by rewrite IH].
Qed.

Lemma consumed_append (w s : string) : consumed (w ++ s) s = w.
Proof.
  unfold consumed. rewrite length_append, chars_append.
  replace (String.length w + String.length s - String.length s)%nat
    with (List.length (chars w)) by (rewrite length_chars; lia).
  rewrite take_app_length. apply string_of_list_ascii_of_string.
Qed.

Lemma repeat_from_S (body : string → groups → cont → option groups)
      (fuel : nat) (s : string) (g : groups) (k : cont) :
  repeat_from body (S fuel) s g k =
  body s g (fun s' g' =>
    match (if (String.length s' <? String.length s)%nat
           then repeat_from body fuel s' g' k else None) with
    | Some m => Some m
    | None => k s' g'
    end).
Proof. reflexivity. Qed.

Lemma repeat_digits (fuel : nat) : ∀ s g k m,
  repeat_from (run digit) fuel s g k = Some m →
  ∃ w s', s = w ++ s' ∧ is_digits w = true ∧ k s' g = Some m.
Proof.
  induction fuel as [|fuel IH]; intros s g k m; [done|].
  rewrite repeat_from_S. unfold digit at 1. cbn [run].
  destruct s as [|b s1]; [done|].
  destruct (isdigit b) eqn:Hb; [|done].
  destruct (String.length s1 <? String.length (String b s1))%nat.
  - destruct (repeat_from (run digit) fuel s1 g k) as [m'|] eqn:Hagain.
    + intros [= <-].
      destruct (IH s1 g k m' Hagain) as (w & s' & -> & Hw & Hk).
      exists (String b w), s'. split; [done|]. split; [|done].
      unfold is_digits in *. simpl. rewrite Hb. simpl.
      by apply andb_true_iff in Hw as [_ ?].
    + intros Hk. exists (String b EmptyString), s1.
      split; [done|]. split; [|done].
      unfold is_digits. simpl. by rewrite Hb.
  - intros Hk. exists (String b EmptyString), s1.
    split; [done|]. split; [|done].
    unfold is_digits. simpl. by rewrite Hb.
Qed.

Lemma repeat_groups (body : string → groups → cont → option groups) :
  (∀ s g k m, body s g k = Some m →
     ∃ s' g', k s' g' = Some m ∧ (digit_groups g → digit_groups g')) →
  ∀ fuel s g k m, repeat_from body fuel s g k = Some m →
     ∃ s' g', k s' g' = Some m ∧ (digit_groups g → digit_groups g').
Proof.
  intros Hbody. induction fuel as [|fuel IH]; intros s g k m; [done|].
  rewrite repeat_from_S.
  intros Hrun. apply Hbody in Hrun as (s1 & g1 & Hk1 & Hg1).
  destruct (String.length s1 <? String.length s)%nat;
    [|by exists s1, g1].
  destruct (repeat_from body fuel s1 g1 k) as [m'|] eqn:Hagain;
    [|by exists s1, g1].
  injection Hk1 as <-.
  destruct (IH s1 g1 k m' Hagain) as (s' & g' & Hk & Hg').
  exists s', g'. split; [done|]. by intros; apply Hg', Hg1.
Qed.

Lemma run_groups (r : regex) :
  groups_of_digits r →
  ∀ s g k m, run r s g k = Some m →
    ∃ s' g', k s' g' = Some m ∧ (digit_groups g → digit_groups g').
Proof.
  induction r as [|c|p|r1 IH1 r2 IH2|r1 IH1 r2 IH2|r1 IH1|r1 IH1|name r1 IH1];
    intros Hr s g k m; cbn [run].
  - intros Hk. by exists s, g.
  - destruct s as [|b s1]; [done|]. destruct (Ascii.eqb c b); [|done].
    intros Hk. by exists s1, g.
  - destruct s as [|b s1]; [done|]. destruct (p b); [|done].
    intros Hk. by exists s1, g.
  - destruct Hr as [Hr1 Hr2]. intros Hrun.
    apply (IH1 Hr1) in Hrun as (s1 & g1 & Hrun & Hg1).
    apply (IH2 Hr2) in Hrun as (s2 & g2 & Hk & Hg2).
    exists s2, g2. split; [done|]. by intros; apply Hg2, Hg1.
  - destruct Hr as [Hr1 Hr2].
    destruct (run r1 s g k) as [m'|] eqn:Hrun1.
    + intros [= <-]. by apply (IH1 Hr1) in Hrun1.
    + intros Hrun2. by apply (IH2 Hr2) in Hrun2.
  - destruct (run r1 s g k) as [m'|] eqn:Hrun1.
    + intros [= <-]. by apply (IH1 Hr) in Hrun1.
    + intros Hk. by exists s, g.
  - apply repeat_groups. by apply IH1.
  - destruct name as [n|].
    + simpl in Hr. subst r1. cbn [run]. intros Hrun.
      apply repeat_digits in Hrun as (w & s' & -> & Hw & Hk).
      rewrite consumed_append in Hk.
      exists s', (<[n:=w]> g). split; [done|].
      intros Hg n' w' Hn'.
      apply lookup_insert_Some in Hn' as [[<- <-]|[_ Hn']]; [done|].
      by eapply Hg.
    + intros Hrun. by apply (IH1 Hr) in Hrun.
Qed.

Lemma changes_are_digits (line : string) (changes : groups) :
  re_match changes_pattern line = Some changes → digit_groups changes.
Proof.
  unfold re_match. intros Hrun.
  apply run_groups in Hrun as (s' & g' & [= <-] & Hg).
  - apply Hg. intros n w Hn. by rewrite lookup_empty in Hn.
  - unfold changes_pattern, ws. simpl. by repeat split.
Qed.

Lemma or_zero_digits (g : groups) (n : string) :
  digit_groups g → is_digits (or_zero (g !! n)) = true.
Proof.
  intros Hg. unfold or_zero. destruct (g !! n) as [w|] eqn:Hn; [|done].
  specialize (Hg n w Hn). destruct w; [done|]. done.
Qed.

(** X9: on every input on which [parse] returns, the three counts of
    every [stats] are non-empty strings of decimal digits: the groups
    of the pattern hold digits only, and a missing group gives "0". *)
Theorem counts_are_digit_strings
  (data : string) (raw quiet : bool) (out : list dict) :
  parse data raw quiet = Ok out →
  ∀ d s, d ∈ out → d !! "stats" = Some (VStats s) →
    is_digits (files_changed s) = true ∧
    is_digits (insertions s) = true ∧
    is_digits (deletions s) = true.
Proof.
  intros Hparse d s Hd Hs.
  assert (Forall (schema_ok digit_counts) out) as Hall.
  { apply (schema_parse digit_counts) with data raw quiet; [| |done].
    - intros line changes Hm. apply changes_are_digits in Hm.
      by split_and!; apply or_zero_digits.
    - by intros s0 names (? & ? & ?). }
  rewrite Forall_forall in Hall.
  by destruct (Hall d Hd "stats" (VStats s) Hs) as [_ ?].
Qed.

Lemma counts_are_digit_strings_witness :
  parse stat_listing false false = Ok stat_listing_out ∧
  (∀ d s, d ∈ stat_listing_out → d !! "stats" = Some (VStats s) →
     is_digits (files_changed s) = true ∧
     is_digits (insertions s) = true ∧
     is_digits (deletions s) = true).
Proof.
  assert (parse stat_listing false false = Ok stat_listing_out)
    as Hparse by (vm_compute; reflexivity).
  split; [exact Hparse|].
  exact (counts_are_digit_strings stat_listing false false _ Hparse).
Defined.


(** ** Why [parse] raises *)

Lemma typed_step (st st' : state) (line : string) :
  Forall typed (heap st) → process_line st line = Ok st' →
  Forall typed (heap st').
Proof. by apply schema_step. Qed.

Lemma seal_raises (st : state) (e : exn) :
  Forall typed (heap st) → seal st = Raise e →
  e = KeyError ∧ file_list st ≠ [].
Proof.
  intros Hh. rewrite seal_unfold.
  assert (Forall typed (heap (sealed_message st))) as Hh1.
  { unfold sealed_message. destruct (nonempty _); [|done].
    apply schema_setitem; [|done]. unfold value_ok, string_keys.
    set_solver. }
  destruct (file_list st) as [|name names]; [done|]. simpl.
  unfold append_files.
  destruct (cur (sealed_message st) !! "stats") as [[?|s]|] eqn:Hs;
    try done.
  - pose proof (schema_at_addr _ _ _ Hh1 _ _ Hs) as Hbad.
    unfold value_ok in Hbad.
    apply (bool_decide_eq_true_2 _) in Hbad. by vm_compute in Hbad.
  - simpl. by intros [= <-].
Qed.

Lemma step_raises (st : state) (line : string) (e : exn) :
  Forall typed (heap st) → process_line st line = Raise e →
  cause e [line] ∨ (e = KeyError ∧ file_list st ≠ []).
Proof.
  intros Hh. rewrite process_line_by_role. unfold item.
  destruct (classify line) eqn:Hcl;
    try done;
    try (destruct (truthy (cur st));
         [destruct (seal st) as [st2|e'] eqn:Hseal;
          [|simpl; intros [= <-]; right; by eapply seal_raises]|]);
    try (destruct (re_match changes_pattern line) as [changes|] eqn:Hm;
         [done|]; intros [= <-]; left; exists line;
         split; [by apply list_elem_of_singleton | done]);
    destruct (split1 line !! 1) as [rest|] eqn:H1; simpl;
    try (destruct (split1 line !! 0) as [tok|] eqn:H0; simpl);
    try (destruct (rsplit1 rest) as [|name [|email ?]] eqn:Hr; simpl);
    try done;
    intros [= <-]; left; exists line;
    (split; [by apply list_elem_of_singleton|]);
    (split; [by rewrite Hcl|]);
    unfold well_formed, rest_of; rewrite Hcl, H1; try rewrite Hr;
    first [done | exfalso; destruct (split1 line); simpl in *; congruence].
Qed.

(** The buffer of file names holds names of file lines only. *)
Lemma step_file_list (st st' : state) (line : string) :
  process_line st line = Ok st' → file_list st' ≠ [] →
  file_list st ≠ [] ∨ classify line = FileStatLine.
Proof.
  rewrite process_line_by_role. unfold item.
  destruct (classify line) eqn:Hcl; try (by right).
  - destruct (split1 line) as [|commit [|message ?]]; simpl; try done.
    intros [= <-]. by left.
  - destruct (truthy (cur st)).
    + destruct (seal st) as [st2|]; simpl; [|done].
      destruct (split1 line !! 1) as [v|]; simpl; [|done].
      by intros [= <-].
    + simpl. destruct (split1 line !! 1) as [v|]; simpl; [|done].
      intros [= <-]. by left.
  - destruct (split1 line !! 1) as [v|]; simpl; [|done].
    intros [= <-]. by left.
  - destruct (split1 line !! 1) as [rest|]; simpl; [|done].
    destruct (rsplit1 rest) as [|name [|email ?]]; simpl; try done.
    intros [= <-]. by left.
  - destruct (split1 line !! 1) as [v|]; simpl; [|done].
    intros [= <-]. by left.
  - destruct (split1 line !! 1) as [v|]; simpl; [|done].
    intros [= <-]. by left.
  - destruct (split1 line !! 1) as [v|]; simpl; [|done].
    intros [= <-]. by left.
  - destruct (split1 line !! 1) as [rest|]; simpl; [|done].
    destruct (rsplit1 rest) as [|name [|email ?]]; simpl; try done.
    intros [= <-]. by left.
  - intros [= <-]. by left.
  - destruct (re_match changes_pattern line); [|done].
    intros [= <-]. by left.
  - intros [= <-]. by left.
Qed.

Lemma cause_mono (e : exn) (l1 l2 : list string) :
  l1 ⊆ l2 → cause e l1 → cause e l2.
Proof.
  intros Hsub. destruct e; simpl; intros (line & Hin & Hc);
    exists line; (split; [by apply Hsub | done]).
Qed.

Lemma run_raises (lines : list string) : ∀ st seen e,
  Forall typed (heap st) →
  (file_list st ≠ [] → cause KeyError seen) →
  run_lines lines st = Raise e → cause e (seen ++ lines).
Proof.
  induction lines as [|line rest IH]; intros st seen e Hh Hfl; simpl;
    [done|].
  destruct (process_line st line) as [st1|e1] eqn:Hstep; simpl.
  - intros Hrun.
    replace (seen ++ line :: rest)%list with ((seen ++ [line]) ++ rest)%list
      by by rewrite <- app_assoc.
    apply (IH st1); [by eapply typed_step | | done].
    intros Hne. destruct (step_file_list _ _ _ Hstep Hne) as [Hold|Hcl].
    + eapply cause_mono; [|by apply Hfl].
      intros x Hx. apply elem_of_app. by left.
    + exists line. split; [|done].
      apply elem_of_app. right. by apply list_elem_of_singleton.
  - intros [= <-].
    destruct (step_raises st line e1 Hh Hstep) as [Hc|[-> Hne]].
    + eapply cause_mono; [|exact Hc].
      intros x ->%list_elem_of_singleton. apply elem_of_app. right.
      by left.
    + eapply cause_mono; [|by apply Hfl].
      intros x Hx. apply elem_of_app. by left.
Qed.

Lemma run_file_list (lines : list string) : ∀ st st' seen,
  Forall typed (heap st) →
  (file_list st ≠ [] → cause KeyError seen) →
  run_lines lines st = Ok st' →
  Forall typed (heap st') ∧
  (file_list st' ≠ [] → cause KeyError (seen ++ lines)).
Proof.
  induction lines as [|line rest IH]; intros st st' seen Hh Hfl; simpl.
  - intros [= <-]. by rewrite app_nil_r.
  - intros Hrun. apply bind_Ok_inv in Hrun as (st1 & Hstep & Hrun).
    replace (seen ++ line :: rest)%list with ((seen ++ [line]) ++ rest)%list
      by by rewrite <- app_assoc.
    apply (IH st1); [by eapply typed_step | | done].
    intros Hne. destruct (step_file_list _ _ _ Hstep Hne) as [Hold|Hcl].
    + eapply cause_mono; [|by apply Hfl].
      intros x Hx. apply elem_of_app. by left.
    + exists line. split; [|done].
      apply elem_of_app. right. by apply list_elem_of_singleton.
Qed.

(** X10: what in the input makes [parse] raise.  [IndexError]: a line
    of a role that reads [line_list[1]] or [values[1]] and lacks it;
    [TypeError]: a summary line the pattern does not match;
    [KeyError]: a file line (its name is buffered when a record with
    no [stats] is sealed). *)
Theorem raised_exception_has_cause
  (data : string) (raw quiet : bool) (e : exn) :
  parse data raw quiet = Raise e →
  match e with
  | IndexError =>
      ∃ line, line ∈ splitlines data ∧ classify line ≠ SummaryStatsLine ∧
              well_formed line = false
  | TypeError =>
      ∃ line, line ∈ splitlines data ∧ classify line = SummaryStatsLine ∧
              re_match changes_pattern line = None
  | KeyError => ∃ line, line ∈ splitlines data ∧ classify line = FileStatLine
  end.
Proof.
  rewrite parse_unguarded. unfold parse_lines. intros Hparse.
  assert (Forall typed (heap init)) as Hh0.
  { simpl. constructor; [apply schema_empty | constructor]. }
  change (cause e (splitlines data)).
  destruct (run_lines (splitlines data) init) as [st|e1] eqn:Hrun.
  - rewrite bind_Ok in Hparse.
    destruct (run_file_list _ init st [] Hh0 ltac:(done) Hrun) as [Hh Hfl].
    destruct (truthy (cur st)); [|done].
    destruct (seal st) as [st2|e2] eqn:Hseal; [done|].
    injection Hparse as <-.
    destruct (seal_raises st e2 Hh Hseal) as [-> Hne]. by apply Hfl.
  - injection Hparse as <-.
    by apply (run_raises _ init [] e1 Hh0 ltac:(done)).
Qed.

Lemma raised_exception_has_cause_witness :
  ∃ line, line ∈ splitlines (text ["commit 1a2b"; " a.txt | 2 +-"]) ∧
          classify line = FileStatLine.
Proof.
  apply (raised_exception_has_cause
           (text ["commit 1a2b"; " a.txt | 2 +-"]) false false KeyError).
  vm_compute. reflexivity.
Defined.


(** ** Listings that give no record *)

Lemma shape_step_opened_iff (sh sh' : shape) (line : string) :
  shape_step sh line = Some sh' →
  opened sh' = opened sh || negb (keeps_record line).
Proof.
  unfold shape_step, keeps_record.
  destruct (negb (well_formed line)); [done|].
  destruct (classify line), sh as [o w p]; simpl;
    try (intros [= <-]; simpl; by rewrite ?orb_true_r, ?orb_false_r).
  destruct o; simpl; [|by intros [= <-]].
  destruct (seal_ok _); [by intros [= <-]|done].
Qed.

Lemma shape_run_opened_iff (lines : list string) : ∀ sh sh',
  shape_run sh lines = Some sh' →
  opened sh' = opened sh || negb (forallb keeps_record lines).
Proof.
  induction lines as [|line rest IH]; intros sh sh'; simpl.
  - intros [= <-]. by rewrite orb_false_r.
  - destruct (shape_step sh line) as [sh1|] eqn:Hstep; simpl; [|done].
    intros Hrun. rewrite (IH _ _ Hrun), (shape_step_opened_iff _ _ _ Hstep).
    by destruct (opened sh), (keeps_record line), (forallb _ rest).
Qed.

Lemma forallb_keeps (lines : list string) :
  forallb keeps_record lines = true →
  Forall (λ line, keeps_record line = true) lines.
Proof.
  induction lines as [|line rest IH]; simpl; [done|].
  intros [Hl Hr]%andb_true_iff. constructor; [done | by apply IH].
Qed.

(** X11: [parse] returns the empty list exactly when every line is a
    message line, a file line or a line of no role: such lines are
    buffered or skipped, and with no other line [output_line] stays
    empty to the end, so that the buffers are dropped. *)
Theorem no_record_iff_no_field_line (data : string) (raw quiet : bool) :
  parse data raw quiet = Ok [] ↔
  forallb keeps_record (splitlines data) = true.
Proof.
  rewrite parse_unguarded. unfold parse_lines.
  pose proof (run_sim (splitlines data) init shape0 sim_init) as Hsim.
  destruct (run_lines (splitlines data) init) as [st|e] eqn:Hrun.
  - destruct (shape_run shape0 (splitlines data)) as [sh|] eqn:Hsh;
      [|done].
    apply shape_run_opened_iff in Hsh. simpl in Hsh.
    rewrite (sim_opened _ _ Hsim) in Hsh. rewrite bind_Ok.
    destruct (forallb keeps_record (splitlines data)) eqn:Hall;
      simpl in Hsh; rewrite Hsh.
    + split; [done|intros _]. rewrite bind_Ok.
      apply forallb_keeps in Hall.
      destruct (keeps_record_run _ init Hall) as (st1 & Hrun1 & _ & Hr & _).
      rewrite Hrun in Hrun1. injection Hrun1 as <-.
      unfold contents. by rewrite Hr.
    + split; [|done].
      destruct (seal st) as [st2|e] eqn:Hseal; [|done].
      rewrite !bind_Ok. intros [= Hout].
      destruct (seal_Ok st st2 (sim_wf _ _ Hsim) Hseal) as (_ & Hr & _).
      unfold contents in Hout. rewrite Hr, map_app in Hout.
      by destruct (map _ (raw_output st)).
  - destruct (shape_run shape0 (splitlines data)) as [sh|] eqn:Hsh;
      [done|].
    split; [done|]. intros Hall.
    apply forallb_keeps in Hall.
    destruct (keeps_record_run _ init Hall) as (st1 & Hrun1 & _).
    by rewrite Hrun in Hrun1.
Qed.

(** ** One-line listings *)

Lemma compact_line_step (st : state) (line : string) (d : dict) :
  compact_line line = Some d →
  process_line st line = Ok (append_output (bind_new d st)) ∧
  truthy d = true.
Proof.
  unfold compact_line. rewrite process_line_by_role.
  unfold classify, is_compact, item.
  destruct (split1 line) as [|commit [|message ?]]; try done.
  destruct (_is_commit_hash commit); [|done].
  intros [= <-]. split; [done|]. apply truthy_insert.
Qed.

Lemma contents_compact (st : state) (d : dict) :
  wf st → contents (append_output (bind_new d st)) = (contents st ++ [d])%list.
Proof.
  intros [Ho Hr]. unfold contents. simpl. rewrite map_app. simpl.
  rewrite at_addr_app_new. f_equal.
  apply map_ext_Forall. eapply Forall_impl; [exact Hr|].
  intros a Ha. by apply at_addr_app_l.
Qed.

Lemma run_compact (lines : list string) : ∀ st ds,
  wf st → Forall2 (λ line d, compact_line line = Some d) lines ds →
  ∃ st', run_lines lines st = Ok st' ∧ wf st' ∧
         contents st' = (contents st ++ ds)%list ∧
         cur st' = default (cur st) (last ds) ∧
         (ds ≠ [] → truthy (cur st') = true) ∧
         message_lines st' = message_lines st ∧
         file_list st' = file_list st.
Proof.
  induction lines as [|line rest IH]; intros st ds Hwf Hall.
  - apply Forall2_nil_inv_l in Hall as ->. exists st.
    by rewrite app_nil_r.
  - apply Forall2_cons_inv_l in Hall as (d & ds' & Hd & Hrest & ->).
    destruct (compact_line_step st line d Hd) as [Hstep Ht].
    simpl. rewrite Hstep, bind_Ok.
    destruct (IH (append_output (bind_new d st)) ds')
      as (st' & Hrun & Hwf' & Hc & Hcur & Htr & Hm & Hf);
      [by apply wf_append_output, wf_bind_new | done |].
    exists st'. split_and!; try done.
    + rewrite Hc, contents_compact by done. by rewrite <- app_assoc.
    + rewrite Hcur, cur_append_output, cur_bind_new, last_cons.
      by destruct (last ds').
    + intros _. destruct ds' as [|d' ds'']; [|by apply Htr].
      by rewrite Hcur, cur_append_output, cur_bind_new.
Qed.

(** X12: a listing of compact lines gives one record per line, in
    the order of the lines, and then the record of the last line once
    more: the compact branch appends [output_line] and leaves it
    bound, so the end of [parse] appends it again. *)
Theorem oneline_listing_repeats_last
  (data : string) (raw quiet : bool) (ds : list dict) :
  mapM compact_line (splitlines data) = Some ds →
  parse data raw quiet = Ok (ds ++ option_list (last ds))%list.
Proof.
  intros Hall%mapM_Some. rewrite parse_unguarded. unfold parse_lines.
  destruct (run_compact _ init ds wf_init Hall)
    as (st & -> & Hwf & Hc & Hcur & Htr & Hm & Hf).
  rewrite bind_Ok. destruct ds as [|d ds'] eqn:Hds.
  - simpl in Hcur. rewrite Hcur. change (cur init) with (∅ : dict).
    rewrite truthy_empty. by rewrite !bind_Ok, Hc.
  - rewrite <- Hds in *. rewrite Htr by by rewrite Hds.
    rewrite seal_unfold, Hf. unfold sealed_message. rewrite Hm. simpl.
    f_equal. unfold contents in *. simpl. rewrite map_app, Hc. simpl.
    f_equal. fold (cur st). rewrite Hcur.
    destruct (last ds) eqn:Hl; [done|].
    apply last_None in Hl. by rewrite Hds in Hl.
Qed.

Lemma oneline_listing_repeats_last_witness :
  parse (text [hash40 ++ " fix bug"; hash40 ++ " add test"]) false false =
    Ok [ compact_record hash40 "fix bug";
         compact_record hash40 "add test";
         compact_record hash40 "add test" ].
Proof.
  apply (oneline_listing_repeats_last
           (text [hash40 ++ " fix bug"; hash40 ++ " add test"]) false false
           [ compact_record hash40 "fix bug";
             compact_record hash40 "add test" ]).
  vm_compute. reflexivity.
Defined.


(** ** No record is empty *)

Lemma truthy_grows (d d' : dict) :
  (∀ k, is_Some (d !! k) → is_Some (d' !! k)) →
  truthy d = true → truthy d' = true.
Proof.
  unfold truthy. intros Hk Hd.
  apply negb_true_iff, bool_decide_eq_false in Hd.
  apply negb_true_iff, bool_decide_eq_false. intros ->.
  apply map_choose in Hd as (k & v & Hkv).
  destruct (Hk k) as [v' Hv']; [by eauto|].
  by rewrite lookup_empty in Hv'.
Qed.

Lemma truthy_sealed_dict (d : dict) (msgs names : list string) :
  truthy d = true → truthy (sealed_dict d msgs names) = true.
Proof.
  intros Hd. unfold sealed_dict.
  assert (truthy (if nonempty msgs
                  then <["message" := VStr (join newline msgs)]> d
                  else d) = true) as Hd1.
  { destruct (nonempty msgs); [apply truthy_insert | done]. }
  destruct (nonempty names); [|done].
  destruct (_ !! "stats") as [[?|s]|]; try done. apply truthy_insert.
Qed.

Lemma filled_seal (st st2 : state) :
  filled st → truthy (cur st) = true → seal st = Ok st2 → filled st2.
Proof.
  intros [Hwf Hall] Htr Hseal.
  pose proof (seal_cur st st2 Hwf Hseal) as Hcur.
  destruct (seal_Ok st st2 Hwf Hseal) as (Hwf2 & Hr & Ho & _ & Hf & _).
  assert (truthy (at_addr (heap st2) (output_line st)) = true) as Hnew.
  { rewrite <- Ho. fold (cur st2). rewrite Hcur.
    by apply truthy_sealed_dict. }
  split; [done|]. rewrite Hr. apply Forall_app. split.
  - eapply Forall_impl; [exact Hall|]. intros a Ha. simpl in Ha.
    destruct (decide (a = output_line st)) as [->|Hne]; [done|].
    by rewrite Hf.
  - by repeat constructor.
Qed.

Lemma filled_step (st st' : state) (line : string) :
  filled st → process_line st line = Ok st' → filled st'.
Proof.
  intros [Hwf Hall] Hstep.
  destruct (decide (classify line = CompactCommit)) as [Hcl|Hn1].
  { destruct (step_compact st st' line Hcl Hstep) as (c & m & _ & ->).
    split; [by apply wf_append_output, wf_bind_new|]. simpl.
    apply Forall_app. split.
    - destruct Hwf as [_ Hlt].
      rewrite Forall_forall in Hall, Hlt. apply Forall_forall.
      intros a Ha. rewrite at_addr_app_l by by apply Hlt.
      by apply Hall.
    - repeat constructor. rewrite at_addr_app_new. apply truthy_insert. }
  destruct (decide (classify line = RecordBoundary)) as [Hcl|Hn2].
  { destruct (step_boundary st st' line Hcl Hstep) as (v & _ & Hst).
    destruct (truthy (cur st)) eqn:Htr.
    - destruct Hst as (st2 & Hseal & ->).
      destruct (filled_seal st st2 (conj Hwf Hall) Htr Hseal)
        as [Hwf2 Hall2].
      split; [by apply wf_setitem, wf_clear_buffers, wf_bind_new|].
      simpl. destruct Hwf2 as [_ Hlt].
      rewrite Forall_forall in Hall2, Hlt. apply Forall_forall.
      intros a Ha. pose proof (Hlt a Ha) as Hlen. simpl in Hlen.
      rewrite at_addr_alter_ne by lia. rewrite at_addr_app_l by done.
      by apply Hall2.
    - subst st'. split; [by apply wf_setitem|]. simpl.
      eapply Forall_impl; [exact Hall|]. intros a Ha. simpl in Ha.
      destruct (decide (a = output_line st)) as [->|Hne].
      + destruct Hwf as [Hlt _]. rewrite at_addr_alter_eq by done.
        apply truthy_insert.
      + by rewrite at_addr_alter_ne. }
  destruct (step_same_record st st' line Hwf) as (Hsame & _); [|done|].
  { by intros [?|?]. }
  destruct Hsame as (Hwf' & Hr & Ho & _ & Hf & Hk).
  split; [done|]. rewrite Hr.
  eapply Forall_impl; [exact Hall|]. intros a Ha. simpl in Ha.
  destruct (decide (a = output_line st)) as [->|Hne].
  - rewrite <- Ho. fold (cur st'). by eapply truthy_grows.
  - by rewrite Hf.
Qed.

Lemma filled_run (lines : list string) : ∀ st st',
  filled st → run_lines lines st = Ok st' → filled st'.
Proof.
  induction lines as [|line rest IH]; intros st st' Hst; simpl.
  - by intros [= <-].
  - intros (st1 & Hstep & Hrun)%bind_Ok_inv.
    eapply IH; [|exact Hrun]. by eapply filled_step.
Qed.

(** X13: no record of the output is an empty dictionary: a dictionary
    is appended by the compact branch, which has just filled it, or
    under [if output_line:], and a dictionary only ever gains keys. *)
Theorem no_empty_record
  (data : string) (raw quiet : bool) (out : list dict) :
  parse data raw quiet = Ok out → ∀ d, d ∈ out → d ≠ ∅.
Proof.
  rewrite parse_unguarded. unfold parse_lines.
  intros (st & Hrun & Hfin)%bind_Ok_inv.
  apply bind_Ok_inv in Hfin as (st' & Hfin & [= <-]).
  assert (filled init) as H0 by (split; [apply wf_init | constructor]).
  pose proof (filled_run _ _ _ H0 Hrun) as Hst.
  assert (filled st') as [_ Hall].
  { destruct (truthy (cur st)) eqn:Htr; [by eapply filled_seal|].
    by injection Hfin as <-. }
  intros d (a & -> & Ha)%list_elem_of_fmap.
  rewrite Forall_forall in Hall. specialize (Hall a Ha). simpl in Hall.
  intros Hd. by rewrite Hd, truthy_empty in Hall.
Qed.

Lemma no_empty_record_witness :
  parse two_commits false false =
    Ok [ {[ "commit" := VStr "1a2b" ]}; {[ "commit" := VStr "3c4d" ]} ] ∧
  (∀ d, d ∈ [ ({[ "commit" := VStr "1a2b" ]} : dict);
              {[ "commit" := VStr "3c4d" ]} ] → d ≠ ∅).
Proof.
  assert (parse two_commits false false =
            Ok [ {[ "commit" := VStr "1a2b" ]}; {[ "commit" := VStr "3c4d" ]} ])
    as Hparse by (vm_compute; reflexivity).
  split; [exact Hparse|].
  exact (no_empty_record two_commits false false _ Hparse).
Defined.


(** ** A compact line and the lines after it *)

Lemma sharing_step (st st' : state) (d0 : dict) (seg : list string)
      (line : string) :
  sharing st d0 seg → ¬ opens_record (classify line) →
  process_line st line = Ok st' → sharing st' d0 (seg ++ [line]).
Proof.
  intros (Hwf & Hraw & Hcur & Hmsg & Hfiles) Hrole Hstep.
  destruct (step_same_record st st' line Hwf Hrole Hstep)
    as ((Hwf' & Hr & Ho & _) & _ & _ & _ & Hmsg').
  destruct (step_assign st st' line Hwf Hrole Hstep) as [Hcur' Hfiles'].
  split_and!.
  - done.
  - by rewrite Hr, Ho.
  - by rewrite Hcur', Hcur, foldl_app.
  - rewrite Hmsg', lines_of_role_snoc, fmap_app, Hmsg.
    destruct (decide (classify line = MessageLine)); simpl;
      [done | by rewrite app_nil_r].
  - rewrite Hfiles', lines_of_role_snoc, fmap_app, Hfiles.
    destruct (decide (classify line = FileStatLine)); simpl;
      [done | by rewrite app_nil_r].
Qed.

Lemma sharing_run (lines : list string) : ∀ st st' d0 seg,
  sharing st d0 seg →
  Forall (λ line, classify line ≠ CompactCommit ∧
                  classify line ≠ RecordBoundary) lines →
  run_lines lines st = Ok st' → sharing st' d0 (seg ++ lines).
Proof.
  induction lines as [|line rest IH]; intros st st' d0 seg Hst Hall; simpl.
  - intros [= <-]. by rewrite app_nil_r.
  - intros (st1 & Hstep & Hrun)%bind_Ok_inv.
    apply Forall_cons in Hall as [[Hn1 Hn2] Hall].
    replace (seg ++ line :: rest)%list with ((seg ++ [line]) ++ rest)%list
      by by rewrite <- app_assoc.
    eapply IH; [|done|exact Hrun].
    eapply sharing_step; [exact Hst| |exact Hstep]. by intros [?|?].
Qed.

(** X14: when the first line of a text is a compact line and no later
    line is a compact or a commit line, the output on which [parse]
    returns is one dictionary twice, and that dictionary is the one
    of the compact line with what the later lines assign: their
    header fields, their message lines in place of the message of the
    compact line, their file names.  The compact branch appends
    [output_line] itself, and the later lines write to it. *)
Theorem compact_record_takes_later_lines
  (data : string) (raw quiet : bool) (line : string) (seg : list string)
  (d0 : dict) (out : list dict) :
  splitlines data = line :: seg →
  compact_line line = Some d0 →
  Forall (λ l, classify l ≠ CompactCommit ∧ classify l ≠ RecordBoundary)
         seg →
  parse data raw quiet = Ok out →
  out = [record_from d0 seg; record_from d0 seg].
Proof.
  intros Hlines Hd0 Hseg. rewrite parse_unguarded, Hlines.
  unfold parse_lines. simpl.
  destruct (compact_line_step init line d0 Hd0) as [-> Htr0].
  rewrite bind_Ok.
  intros (st & Hrun & Hfin)%bind_Ok_inv.
  apply bind_Ok_inv in Hfin as (st' & Hfin & [= <-]).
  assert (sharing (append_output (bind_new d0 init)) d0 []) as H0.
  { split_and!; try done.
    by apply wf_append_output, wf_bind_new, wf_init. }
  destruct (sharing_run _ _ _ _ _ H0 Hseg Hrun)
    as (Hwf & Hraw & Hcur & Hmsg & Hfiles).
  simpl in Hcur.
  assert (truthy (cur st) = true) as Htr.
  { rewrite Hcur. clear -Htr0. revert d0 Htr0.
    induction seg as [|l seg IH]; intros d0 Htr0; simpl; [done|].
    apply IH. unfold assign, rest_field, identity_fields.
    destruct (classify l); try done;
      repeat (case_match; try done); apply truthy_insert. }
  rewrite Htr in Hfin.
  pose proof (seal_cur st st' Hwf Hfin) as Hcur'.
  destruct (seal_Ok st st' Hwf Hfin) as (_ & Hr & Ho & _).
  unfold contents. rewrite Hr, Hraw, <- Ho. simpl. fold (cur st').
  by rewrite Hcur', Hcur, Hmsg, Hfiles.
Qed.

Lemma compact_record_takes_later_lines_witness :
  [ ({[ "commit" := VStr hash40; "message" := VStr "more";
        "merge" := VStr "3c4d 5e6f" ]} : dict);
    {[ "commit" := VStr hash40; "message" := VStr "more";
       "merge" := VStr "3c4d 5e6f" ]} ] =
  [ record_from (compact_record hash40 "fix bug")
                ["Merge: 3c4d 5e6f"; "    more"];
    record_from (compact_record hash40 "fix bug")
                ["Merge: 3c4d 5e6f"; "    more"] ].
Proof.
  apply (compact_record_takes_later_lines
           (text [hash40 ++ " fix bug"; "Merge: 3c4d 5e6f"; "    more"])
           false false (hash40 ++ " fix bug")).
  - vm_compute. reflexivity.
  - vm_compute. reflexivity.
  - repeat (constructor; [split; vm_compute; discriminate|]). constructor.
  - vm_compute. reflexivity.
Defined.

End GitLogFacts.
